(** * SZ-EWS: the silence-zone pipeline, embedded and verified

    The development follows the three programs of the repository:
    - [notebooks/szi_step3_timeseries.py]: monthly aggregation, outer merge,
      rolling baseline, suppression ratio ([Module Step3]);
    - [notebooks/szi_step4_silence_detection.py]: threshold flags, consecutive
      runs, silence state, alerts ([Module Step4]);
    - [app.py]: the priority engine of the dashboard ([Module App]).

    Data frames are lists of rows (records); a column is a list; a
    [groupby(...).transform(f)] is [Frame.groupby_transform].

    Numbers.  A float64 column is modelled by [fval]: an exact rational, or one
    of the three special values NaN, +inf, -inf that the source tests for and
    replaces.  Arithmetic on the finite part is exact: binary64 rounding and
    the sign of zero are not modelled (the thresholds 0.60 and 0.40 are the
    rationals 3/5 and 2/5).  The model of the three feeds ([Step3.Feed])
    holds activity figures that are numbers, summed without a bound: a figure
    that is infinite in the source (a cell that reads inf, a float64 sum that
    overflows) or a sum that wraps in int64 is not a value of a feed.  The
    merged frame carries [fval] columns: the facts on the baseline, the
    ratio, the states and the score are stated for every merged frame, the
    totals NaN, +inf and -inf included, or under an explicit condition on
    the totals.

    Files.  Step 3 writes the series to a CSV file and step 4 reads it back,
    step 4 writes the final table and the dashboard reads it back: a file is
    modelled by the list of rows that is written to it.

    The definitions come first ([Float], [Frame], [Step3], [Step4], [App],
    [Sample]); the modules of facts follow, one per program. *)

From Stdlib Require Import String.
From Stdlib Require OrderedTypeEx.
From Stdlib Require Import List Bool Arith ZArith QArith Lia Sorted Permutation.
Import ListNotations.

Local Open Scope nat_scope.

(* ================================================================== *)
(** * Float values *)
(* ================================================================== *)

Module Float.

Inductive fval : Type :=
| NaN
| PInf
| NInf
| Fin (q : Q).

Definition Qltb (x y : Q) : bool := negb (Qle_bool y x).

Definition Qsgn (q : Q) : comparison := (0 ?= q)%Q.

Definition isna (x : fval) : bool :=
  match x with NaN => true | _ => false end.

Definition isinf (x : fval) : bool :=
  match x with PInf | NInf => true | _ => false end.


(** [==] of two floats: false as soon as one side is NaN. *)
Definition feqb (x y : fval) : bool :=
  match x, y with
  | PInf, PInf => true
  | NInf, NInf => true
  | Fin a, Fin b => Qeq_bool a b
  | _, _ => false
  end.

(** [<] of two floats: false as soon as one side is NaN. *)
Definition fltb (x y : fval) : bool :=
  match x, y with
  | NaN, _ | _, NaN => false
  | NInf, NInf => false
  | NInf, _ => true
  | _, NInf => false
  | PInf, _ => false
  | Fin _, PInf => true
  | Fin a, Fin b => Qltb a b
  end.

Definition fleb (x y : fval) : bool :=
  match x, y with
  | NaN, _ | _, NaN => false
  | NInf, _ => true
  | _, PInf => true
  | _, NInf => false
  | PInf, _ => false
  | Fin a, Fin b => Qle_bool a b
  end.

Definition fgtb (x y : fval) : bool := fltb y x.
Definition fgeb (x y : fval) : bool := fleb y x.

Definition fopp (x : fval) : fval :=
  match x with
  | NaN => NaN
  | PInf => NInf
  | NInf => PInf
  | Fin a => Fin (- a)
  end.

Definition fadd (x y : fval) : fval :=
  match x, y with
  | NaN, _ | _, NaN => NaN
  | PInf, NInf | NInf, PInf => NaN
  | PInf, _ | _, PInf => PInf
  | NInf, _ | _, NInf => NInf
  | Fin a, Fin b => Fin (a + b)
  end.

Definition fsub (x y : fval) : fval := fadd x (fopp y).

(** An infinity of the sign of [q] times the sign [pos]; NaN for [q = 0]. *)
Definition inf_of_sign (pos : bool) (q : Q) : fval :=
  match Qsgn q with
  | Eq => NaN
  | Lt => if pos then PInf else NInf
  | Gt => if pos then NInf else PInf
  end.

Definition fmul (x y : fval) : fval :=
  match x, y with
  | NaN, _ | _, NaN => NaN
  | PInf, PInf | NInf, NInf => PInf
  | PInf, NInf | NInf, PInf => NInf
  | PInf, Fin b | Fin b, PInf => inf_of_sign true b
  | NInf, Fin b | Fin b, NInf => inf_of_sign false b
  | Fin a, Fin b => Fin (a * b)
  end.

(** Division as numpy does it on float64: a finite value over zero is an
    infinity of the sign of the numerator, zero over zero is NaN. *)
Definition fdiv (x y : fval) : fval :=
  match x, y with
  | NaN, _ | _, NaN => NaN
  | (PInf | NInf), (PInf | NInf) => NaN
  | PInf, Fin b => if Qltb b 0 then NInf else PInf
  | NInf, Fin b => if Qltb b 0 then PInf else NInf
  | Fin _, (PInf | NInf) => Fin 0
  | Fin a, Fin b =>
      if Qeq_bool b 0 then inf_of_sign true a else Fin (a / b)
  end.

(** [Series.fillna(v)] on one cell. *)
Definition fillna (v : fval) (x : fval) : fval :=
  if isna x then v else x.

(** [Series.replace([a, b], v)] on one cell: the cell is compared with [==]. *)
Definition replace2 (a b v : fval) (x : fval) : fval :=
  if feqb x a || feqb x b then v else x.

(** [Series.clip(lower=lo)] and [Series.clip(lower=lo, upper=hi)] on one
    cell; NaN stays NaN. *)
Definition clip_lower (lo : fval) (x : fval) : fval :=
  if fltb x lo then lo else x.

Definition clip (lo hi : fval) (x : fval) : fval :=
  if fltb x lo then lo else if fgtb x hi then hi else x.

(** [Series.max()]: NaN cells are skipped; NaN when nothing is left. *)
Definition fmax2 (acc x : fval) : fval :=
  match acc, x with
  | _, NaN => acc
  | NaN, _ => x
  | _, _ => if fltb acc x then x else acc
  end.

Definition col_max (xs : list fval) : fval := fold_left fmax2 xs NaN.

Definition of_nat (n : nat) : fval := Fin (inject_Z (Z.of_nat n)).

End Float.

(* ================================================================== *)
(** * Data frames: columns, groups, sorting *)
(* ================================================================== *)

Module Frame.

Section Columns.

Context {A B : Type}.

(** Number of cells of the key column [keys] equal to [k]. *)
Definition count (k : string) (keys : list string) : nat :=
  length (filter (String.eqb k) keys).

(** The cells of column [vals] on the rows whose key is [k], in row order:
    the group that [groupby] hands to the function. *)
Fixpoint group (keys : list string) (vals : list A) (k : string) : list A :=
  match keys, vals with
  | k' :: keys', v :: vals' =>
      if String.eqb k k' then v :: group keys' vals' k else group keys' vals' k
  | _, _ => []
  end.

(** Position of row [i] inside its own group: the number of earlier rows
    that carry the same key. *)
Definition rank (keys : list string) (i : nat) : nat :=
  count (nth i keys EmptyString) (firstn i keys).

(** [df.groupby(key)[col].transform(f)]: [f] receives each group as a whole
    and returns one value per row of the group; the values go back to the
    rows of the group, in order. *)
Definition groupby_transform (f : list A -> list B) (d : B)
    (keys : list string) (vals : list A) : list B :=
  map (fun i => nth (rank keys i) (f (group keys vals (nth i keys EmptyString))) d)
      (seq 0 (length keys)).

End Columns.

Section Sorting.

Context {A : Type}.
Variable leb : A -> A -> bool.

(** [df.sort_values(cols)] as a stable insertion sort: a row goes after the
    rows that are not greater. *)
Fixpoint insert_row (x : A) (l : list A) : list A :=
  match l with
  | [] => [x]
  | y :: l' => if leb y x then y :: insert_row x l' else x :: l
  end.

Definition sort_values (l : list A) : list A :=
  fold_left (fun acc x => insert_row x acc) l [].

End Sorting.

End Frame.

(* ================================================================== *)
(** * Step 3: the merged monthly series, baseline and suppression ratio *)
(* ================================================================== *)

Module Step3.

Import Float Frame.

(** The columns every monthly aggregate is grouped and merged on.  [yyyymm]
    is the month as the ordinal of its monthly period, so that the order of
    [yyyymm_dt] (the first day of the month) is the order of the integers. *)
Record Key : Type := mkKey {
  region_id : string;
  state : string;
  district : string;
  pin_code : string;
  yyyymm : Z
}.

Definition key_eqb (a b : Key) : bool :=
  String.eqb (region_id a) (region_id b)
  && String.eqb (state a) (state b)
  && String.eqb (district a) (district b)
  && String.eqb (pin_code a) (pin_code b)
  && Z.eqb (yyyymm a) (yyyymm b).

(** A feed after [standardize_common] and the sum of its age-band columns:
    one entry per raw row, the key columns and the activity of the row
    (missing or non-numeric counts were coerced to 0).  The activity is kept
    as an exact number: the feeds of the model are those whose figures and
    monthly sums stay in the range of their column type. *)
Definition Feed : Type := list (Key * Q).

(** ** Monthly aggregation: [groupby(keys).agg(sum)] *)

Fixpoint add_to (k : Key) (a : Q) (acc : list (Key * Q)) : list (Key * Q) :=
  match acc with
  | [] => [(k, a)]
  | (k', s) :: acc' =>
      if key_eqb k k' then (k', (s + a)%Q) :: acc' else (k', s) :: add_to k a acc'
  end.

Definition groupby_sum (rows : Feed) : list (Key * Q) :=
  fold_left (fun acc row => add_to (fst row) (snd row) acc) rows [].

(** ** Outer merge on the key columns

    Every left row is paired with each right row of the same key, or with
    missing values when there is none; the right rows whose key is not on the
    left follow, with missing values on the left.  The order of the rows of
    the merged frame is not the one of pandas; the frame is sorted before
    anything depends on it. *)
Definition matches {V} (k : Key) (t : list (Key * V)) : list (Key * V) :=
  filter (fun row => key_eqb k (fst row)) t.

Definition has_key {V} (k : Key) (t : list (Key * V)) : bool :=
  existsb (fun row => key_eqb k (fst row)) t.

(** A table has at most one row per key. *)
Definition unique_keys {V} (t : list (Key * V)) : Prop :=
  forall k, length (matches k t) <= 1.

Section Merge.

Context {X Y : Type}.
Variable (nax : X) (nay : Y).

Definition merge_outer (left : list (Key * X)) (right : list (Key * Y))
    : list (Key * (X * Y)) :=
  flat_map (fun l =>
              match matches (fst l) right with
              | [] => [(fst l, (snd l, nay))]
              | ms => map (fun r => (fst l, (snd l, snd r))) ms
              end) left
  ++ flat_map (fun r =>
                 if has_key (fst r) left then []
                 else [(fst r, (nax, snd r))]) right.

End Merge.

(** The frame after the merge, the zero fill and the total. *)
Record MergedRow : Type := mkMerged {
  m_key : Key;
  m_enrol : fval;
  m_demo : fval;
  m_bio : fval;
  m_total : fval
}.

Definition as_float (t : list (Key * Q)) : list (Key * fval) :=
  map (fun row => (fst row, Fin (snd row))) t.

Definition merged_frame (enrol_m demo_m bio_m : list (Key * Q)) : list MergedRow :=
  let df := merge_outer NaN NaN (as_float enrol_m) (as_float demo_m) in
  let df := merge_outer (NaN, NaN) NaN df (as_float bio_m) in
  map (fun row =>
         let '(k, ((e, d), b)) := row in
         let e := fillna (Fin 0) e in
         let d := fillna (Fin 0) d in
         let b := fillna (Fin 0) b in
         mkMerged k e d b (fadd (fadd e d) b)) df.

(** The activity of the key [k] in a monthly aggregate, 0 when the
    aggregate has no row for [k]. *)
Definition activity_or_zero (k : Key) (t : list (Key * Q)) : Q :=
  match matches k t with
  | [] => 0%Q
  | row :: _ => snd row
  end.

(** ** Rolling baseline: [x.rolling(w, min_periods).mean()] *)

(** The window that ends at position [i]: at most [w] cells. *)
Definition window {A} (w i : nat) (xs : list A) : list A :=
  skipn (i + 1 - w) (firstn (i + 1) xs).

(** The observations of a window: NaN and infinite cells do not count. *)
Definition observed (win : list fval) : list Q :=
  flat_map (fun x => match x with Fin q => [q] | _ => [] end) win.

Definition Qsum (qs : list Q) : Q := fold_left Qplus qs 0%Q.

Definition mean_min (min_periods : nat) (win : list fval) : fval :=
  let obs := observed win in
  let nobs := length obs in
  if (min_periods <=? nobs) && (0 <? nobs)
  then Fin (Qsum obs / inject_Z (Z.of_nat nobs))
  else NaN.

Definition rolling_mean (w min_periods : nat) (xs : list fval) : list fval :=
  map (fun i => mean_min min_periods (window w i xs)) (seq 0 (length xs)).

(** ** The series *)

Record SeriesRow : Type := mkSeries {
  key : Key;
  enrol_activity : fval;
  demo_activity : fval;
  bio_activity : fval;
  total_activity : fval;
  baseline_total_ma6 : fval;
  suppression_ratio : fval
}.

(** Sort key [["region_id", "yyyymm_dt"]]. *)
Definition key_leb (a b : Key) : bool :=
  match String.compare (region_id a) (region_id b) with
  | Lt => true
  | Gt => false
  | Eq => Z.leb (yyyymm a) (yyyymm b)
  end.

Definition ratio (total baseline : fval) : fval :=
  let r := fdiv total baseline in
  fillna (Fin 0) (replace2 PInf NInf (Fin 0) r).

Definition region (r : SeriesRow) : string := region_id (key r).

Definition series_of (df : list MergedRow) : list SeriesRow :=
  let df := sort_values (fun a b => key_leb (m_key a) (m_key b)) df in
  let baseline :=
    groupby_transform (rolling_mean 6 3) NaN
      (map (fun r => region_id (m_key r)) df) (map m_total df) in
  map (fun rb =>
         let '(r, b) := rb in
         mkSeries (m_key r) (m_enrol r) (m_demo r) (m_bio r) (m_total r) b
                  (ratio (m_total r) b))
      (combine df baseline).

(** The sorted frame and the baseline column of [series_of], by name. *)
Definition sorted_frame (df : list MergedRow) : list MergedRow :=
  sort_values (fun a b => key_leb (m_key a) (m_key b)) df.

Definition baseline_col (df : list MergedRow) : list fval :=
  groupby_transform (rolling_mean 6 3) NaN
    (map (fun r => region_id (m_key r)) (sorted_frame df))
    (map m_total (sorted_frame df)).

Definition step3 (enrol demo bio : Feed) : list SeriesRow :=
  let enrol_m := groupby_sum enrol in
  let demo_m := groupby_sum demo in
  let bio_m := groupby_sum bio in
  series_of (merged_frame enrol_m demo_m bio_m).

End Step3.

(* ================================================================== *)
(** * Step 4: silence detection *)
(* ================================================================== *)

Module Step4.

Import Float Frame Step3.

(** ** [compute_consecutive_runs] *)

(** One turn of the loop: the state is the counter and the output list. *)
Definition run_step (st : nat * list nat) (v : bool) : nat * list nat :=
  let '(count, out) := st in
  let count := if v then count + 1 else 0 in
  (count, out ++ [count]).

Definition compute_consecutive_runs (flag_series : list bool) : list nat :=
  snd (fold_left run_step flag_series (0, [])).

(** The same loop as a recursion on what is left of the series, from the
    value [count] of the counter. *)
Fixpoint runs_from (count : nat) (flag_series : list bool) : list nat :=
  match flag_series with
  | [] => []
  | v :: rest =>
      let count := if v then count + 1 else 0 in
      count :: runs_from count rest
  end.

(** ** The final table *)

Inductive SilenceState : Type := Normal | Moderate | Severe.

Definition state_eqb (a b : SilenceState) : bool :=
  match a, b with
  | Normal, Normal | Moderate, Moderate | Severe, Severe => true
  | _, _ => false
  end.

Record FinalRow : Type := mkFinal {
  row : SeriesRow;
  suppression_depth_pct : fval;
  moderate_run : nat;
  severe_run : nat;
  silence_duration_months : nat;
  SZI : fval;
  silence_state : SilenceState;
  alert_flag : nat;
  recommendation : string
}.

Definition moderate_threshold : fval := Fin (60 # 100).
Definition severe_threshold : fval := Fin (40 # 100).

Definition flag_moderate (r : SeriesRow) : bool :=
  fltb (suppression_ratio r) moderate_threshold.

Definition flag_severe (r : SeriesRow) : bool :=
  fltb (suppression_ratio r) severe_threshold.

(** The three assignments of [silence_state], in the order of the source:
    a later one overwrites an earlier one. *)
Definition label (moderate_run severe_run : nat) : SilenceState :=
  let s := Normal in
  let s := if 2 <=? moderate_run then Moderate else s in
  let s := if 3 <=? severe_run then Severe else s in
  s.

Definition depth_pct (suppression_ratio : fval) : fval :=
  clip_lower (Fin 0) (fmul (fsub (Fin 1) suppression_ratio) (Fin 100)).

Definition duration (st : SilenceState) (moderate_run severe_run : nat) : nat :=
  let d := 0 in
  let d := if state_eqb st Moderate then moderate_run else d in
  let d := if state_eqb st Severe then severe_run else d in
  d.

Definition alert (st : SilenceState) (moderate_run severe_run : nat) : nat :=
  let a := 0 in
  let a := if severe_run =? 3 then 1 else a in
  let a := if moderate_run =? 2 then 1 else a in
  let a := if state_eqb st Severe then 1 else a in
  a.

Definition recommend (st : SilenceState) (suppression_depth_pct : fval) : string :=
  match st with
  | Severe =>
      if fgtb suppression_depth_pct (Fin 70)
      then "Deploy Mobile Van + Temporary Camp + Infra Audit"%string
      else "Deploy Mobile Van + Temporary Camp"%string
  | Moderate => "Outreach + Temporary Camp + Monitoring"%string
  | Normal => "Normal Monitoring"%string
  end.

(** The columns that are computed row by row, once the two run counters of
    the row are known. *)
Definition finalize (r : SeriesRow) (moderate_run severe_run : nat) : FinalRow :=
  let st := label moderate_run severe_run in
  let depth := depth_pct (suppression_ratio r) in
  mkFinal r depth moderate_run severe_run
          (duration st moderate_run severe_run)
          (clip (Fin 0) (Fin 1) (suppression_ratio r))
          st
          (alert st moderate_run severe_run)
          (recommend st depth).

Definition row_leb (a b : SeriesRow) : bool := key_leb (key a) (key b).

Definition step4 (input : list SeriesRow) : list FinalRow :=
  let df := sort_values row_leb input in
  let flag_moderate := map flag_moderate df in
  let flag_severe := map flag_severe df in
  let moderate_run :=
    groupby_transform compute_consecutive_runs 0 (map region df) flag_moderate in
  let severe_run :=
    groupby_transform compute_consecutive_runs 0 (map region df) flag_severe in
  map (fun rms => let '(r, (m, s)) := rms in finalize r m s)
      (combine df (combine moderate_run severe_run)).

(** The sorted frame and the two run columns of [step4], by name. *)
Definition sorted_input (input : list SeriesRow) : list SeriesRow :=
  sort_values row_leb input.

Definition moderate_col (input : list SeriesRow) : list nat :=
  groupby_transform compute_consecutive_runs 0
    (map region (sorted_input input)) (map flag_moderate (sorted_input input)).

Definition severe_col (input : list SeriesRow) : list nat :=
  groupby_transform compute_consecutive_runs 0
    (map region (sorted_input input)) (map flag_severe (sorted_input input)).

(** The counter [col] on the row before row [i] of the table [t] when that
    row belongs to the region of [r], the row at [i]; 0 when there is no such
    row.  The table is in (region, month) order, so this is the counter of
    the previous month of the region, and 0 before its first month. *)
Definition previous_run (col : FinalRow -> nat) (t : list FinalRow)
    (i : nat) (r : FinalRow) : nat :=
  match i with
  | 0 => 0
  | S j =>
      match nth_error t j with
      | Some p => if String.eqb (region (row p)) (region (row r)) then col p else 0
      | None => 0
      end
  end.

(** The two programs in sequence, from the three feeds. *)
Definition pipeline (enrol demo bio : Feed) : list FinalRow :=
  step4 (step3 enrol demo bio).

End Step4.

(* ================================================================== *)
(** * The dashboard: priority engine *)
(* ================================================================== *)

Module App.

Import Float Frame Step3 Step4.

Record Scored : Type := mkScored {
  zone : FinalRow;
  dur_norm : fval;
  depth_norm : fval;
  impact_norm : fval;
  risk_norm : fval;
  Priority_Score : fval
}.

Definition weighted (risk_norm dur_norm depth_norm impact_norm : fval) : fval :=
  fadd (fadd (fadd (fmul (Fin (35 # 100)) risk_norm)
                   (fmul (Fin (25 # 100)) dur_norm))
             (fmul (Fin (25 # 100)) depth_norm))
       (fmul (Fin (15 # 100)) impact_norm).

(** [sort_values("Priority_Score", ascending=False)]: greater scores first,
    NaN scores last. *)
Definition score_before (a b : Scored) : bool :=
  match Priority_Score a, Priority_Score b with
  | _, NaN => true
  | NaN, _ => false
  | x, y => fgeb x y
  end.

(** The two denominators: [Series.max()] over the selected set. *)
Definition max_duration (s : list FinalRow) : fval :=
  col_max (map (fun r => of_nat (silence_duration_months r)) s).

Definition max_baseline (s : list FinalRow) : fval :=
  col_max (map (fun r => baseline_total_ma6 (row r)) s).

Definition priority_engine (d : list FinalRow) : list Scored :=
  let s := d in
  let s :=
    map (fun r =>
           let dur_norm := fdiv (of_nat (silence_duration_months r)) (max_duration s) in
           let depth_norm := fdiv (suppression_depth_pct r) (Fin 100) in
           let impact_norm := fdiv (baseline_total_ma6 (row r)) (max_baseline s) in
           let risk_norm := fsub (Fin 1) (SZI r) in
           mkScored r dur_norm depth_norm impact_norm risk_norm
                    (weighted risk_norm dur_norm depth_norm impact_norm)) s in
  sort_values score_before s.

End App.

(* ================================================================== *)
(** * A sample run *)
(* ================================================================== *)

Module Sample.

Import Float Frame Step3 Step4 App.

Definition barpeta (m : Z) : Key :=
  mkKey "Assam | Barpeta | 781301" "Assam" "Barpeta" "781301" m.
Definition gangtok (m : Z) : Key :=
  mkKey "Sikkim | Gangtok | 737101" "Sikkim" "Gangtok" "737101" m.
Definition howrah (m : Z) : Key :=
  mkKey "West Bengal | Howrah | 711101" "West Bengal" "Howrah" "711101" m.

(** Region [gangtok] has the monthly totals 100, 100, 100, 100, 30, 25, 20
    over the months 0 to 6, spread over the three feeds and over several raw
    rows; region [barpeta] has two months; region [howrah] has three months
    without any activity. *)
Definition enrol : Feed :=
  [(gangtok 3, 60 # 1); (gangtok 0, 100 # 1); (barpeta 0, 5 # 1); (gangtok 1, 60 # 1);
   (gangtok 2, 100 # 1); (gangtok 1, 40 # 1); (gangtok 4, 10 # 1);
   (howrah 0, 0 # 1); (howrah 1, 0 # 1); (howrah 2, 0 # 1)]%Q.

Definition demo : Feed :=
  [(gangtok 3, 40 # 1); (gangtok 4, 20 # 1); (barpeta 1, 7 # 1); (gangtok 5, 25 # 1)]%Q.

Definition bio : Feed :=
  [(gangtok 6, 20 # 1); (barpeta 0, 1 # 1)]%Q.

Definition merged : list MergedRow :=
  Eval vm_compute in
    merged_frame (groupby_sum enrol) (groupby_sum demo) (groupby_sum bio).

Definition series : list SeriesRow := Eval vm_compute in step3 enrol demo bio.

Definition final : list FinalRow := Eval vm_compute in step4 series.

Definition blank_month : SeriesRow :=
  mkSeries (mkKey "" "" "" "" 0) NaN NaN NaN NaN NaN NaN.


Definition blank : FinalRow := finalize blank_month 0 0.

(** The last month of [gangtok] and the third month of [howrah] in the
    series. *)
Definition gangtok_last_month : SeriesRow := Eval vm_compute in nth 8 series blank_month.
Definition howrah_third_month : SeriesRow := Eval vm_compute in nth 11 series blank_month.

(** The last month of [gangtok] and the second month of [barpeta] in the
    final table. *)
Definition gangtok_last : FinalRow := Eval vm_compute in nth 8 final blank.
Definition barpeta_second : FinalRow := Eval vm_compute in nth 1 final blank.

End Sample.

(* ================================================================== *)
(** * The dashboard: categories, trends, actions *)
(* ================================================================== *)

Module Dashboard.

Import Float Frame Step3 Step4 App.

(** ** [load_data]

    The table that is loaded is the final table of step 4.  Of [load_data]
    the category column and the removal of the rows without SZI are
    modelled; [region_id] is a string after [astype(str)], so no row is
    removed for it; the other text columns are not looked at here. *)

(** [cat]: the category of an SZI value. *)
Definition cat (szi : fval) : string :=
  if isna szi then "Unknown"%string
  else if fleb szi (Fin (30 # 100)) then "Severe Silence"%string
  else if fleb szi (Fin (60 # 100)) then "Moderate Silence"%string
  else "Normal"%string.

Record Zone : Type := mkZone {
  final : FinalRow;
  SZI_Category : string
}.

Definition load_data (table : list FinalRow) : list Zone :=
  let df := map (fun r => mkZone r (cat (SZI r))) table in
  filter (fun z => negb (isna (SZI (final z)))) df.

(** ** [compute_trends] *)

(** [groupby(...).shift(1)] on one group: every cell moves down by one row,
    the first row gets NaN. *)
Definition shift1 (xs : list fval) : list fval :=
  match xs with
  | [] => []
  | _ :: _ => NaN :: removelast xs
  end.

Record Trend : Type := mkTrend {
  trend_zone : Zone;
  SZI_prev : fval;
  SZI_delta : fval;
  Pre_Silence_Warning : bool
}.

Definition zone_leb (a b : Zone) : bool := row_leb (row (final a)) (row (final b)).

Definition zone_region (z : Zone) : string := region (row (final z)).

Definition compute_trends (d : list Zone) : list Trend :=
  let d := sort_values zone_leb d in
  let prev :=
    groupby_transform shift1 NaN (map zone_region d) (map (fun z => SZI (final z)) d) in
  map (fun zp =>
         let '(z, p) := zp in
         let delta := fsub (SZI (final z)) p in
         mkTrend z p delta
                 (fltb delta (Fin (- 8 # 100)) && fgtb (SZI (final z)) (Fin (30 # 100))))
      (combine d prev).

(** ** [dynamic_recommendation] *)

Definition dynamic_recommendation (r : FinalRow) : string :=
  if (4 <=? silence_duration_months r) && fgeb (suppression_depth_pct r) (Fin 50)
  then "Immediate mobile enrollment + infra audit"%string
  else if fltb (bio_activity (row r)) (demo_activity (row r))
  then "Biometric device refresh and operator training"%string
  else if fltb (enrol_activity (row r))
               (fmul (baseline_total_ma6 (row r)) (Fin (4 # 10)))
  then "Awareness drive and outreach camps"%string
  else "Monitor and reassess next cycle"%string.

(** ** Ranges

    The columns of a record that the priority score reads are in range: SZI
    in [0, 1], depth in [0, 100], baseline missing or at least 0. *)
Definition in_range (r : FinalRow) : Prop :=
  (exists q, SZI r = Fin q /\ (0 <= q)%Q /\ (q <= 1)%Q) /\
  (exists d, suppression_depth_pct r = Fin d /\ (0 <= d)%Q /\ (d <= 100)%Q) /\
  (baseline_total_ma6 (row r) = NaN \/
   exists b, baseline_total_ma6 (row r) = Fin b /\ (0 <= b)%Q).

End Dashboard.

Module SampleDashboard.

Import Float Frame Step3 Step4 App Dashboard.

(** The trends of the sample run; row 6 is the month of [gangtok] in which
    the total falls from 100 to 30. *)
Definition trends : list Trend :=
  Eval vm_compute in compute_trends (load_data Sample.final).

Definition blank_trend : Trend :=
  mkTrend (mkZone Sample.blank EmptyString) NaN NaN false.

Definition gangtok_drop : Trend := Eval vm_compute in nth 6 trends blank_trend.

(** The months 2 to 6 of [gangtok]: the rows of the sample run that have a
    baseline. *)
Definition gangtok_known : list FinalRow :=
  Eval vm_compute in skipn 4 (firstn 9 Sample.final).

(** The months 2 and 3 of [gangtok]: two Normal rows. *)
Definition gangtok_calm : list FinalRow :=
  Eval vm_compute in skipn 4 (firstn 6 Sample.final).

End SampleDashboard.

(* ================================================================== *)
(** * Step 3: [standardize_common] *)
(* ================================================================== *)

Module Normalizer.

Import Ascii Step3.

Local Open Scope string_scope.

(** ** The columns

    The function raises an exception on a frame without one of the required
    columns or without a PIN column; the message names the column, or lists
    the columns that were found. *)
Inductive checked (A : Type) : Type :=
| Ok (a : A)
| MissingColumn (col : string)
| MissingPin (found : list string).

Arguments Ok {A} a.
Arguments MissingColumn {A} col.
Arguments MissingPin {A} found.

Definition required_columns : list string := ["date"; "state"; "district"].

Definition pin_candidates : list string := ["pin_code"; "pincode"; "pin"; "postal_code"].

(** [col in df.columns] *)
Definition has_column (col : string) (columns : list string) : bool :=
  existsb (String.eqb col) columns.

(** The loop over the required columns: the first one that is missing. *)
Fixpoint first_missing (required columns : list string) : option string :=
  match required with
  | [] => None
  | col :: rest =>
      if has_column col columns then first_missing rest columns else Some col
  end.

(** The loop over the candidates, with its [break]. *)
Fixpoint find_pin (candidates columns : list string) : option string :=
  match candidates with
  | [] => None
  | c :: rest => if has_column c columns then Some c else find_pin rest columns
  end.

(** [df.rename(columns={old: new})] *)
Definition rename (old new : string) (columns : list string) : list string :=
  map (fun c => if String.eqb c old then new else c) columns.

Section Columns.

(** [c.strip().lower()] of a column name. *)
Variable clean : string -> string.

(** The columns of the frame after the checks and the renaming, with the
    name of the PIN column that was found. *)
Definition standardize_columns (columns : list string) : checked (list string * string) :=
  let columns := map clean columns in
  match first_missing required_columns columns with
  | Some col => MissingColumn col
  | None =>
      match find_pin pin_candidates columns with
      | None => MissingPin columns
      | Some pin_col => Ok (rename pin_col "pin_code" columns, pin_col)
      end
  end.

End Columns.

(** ** The region key: [state + " | " + district + " | " + pin_code] *)
Definition make_region_id (state district pin_code : string) : string :=
  (((state ++ " | ") ++ district) ++ " | ") ++ pin_code.

(** The string holds the character of the separator. *)
Fixpoint has_bar (s : string) : bool :=
  match s with
  | EmptyString => false
  | String c rest => Ascii.eqb c "|"%char || has_bar rest
  end.

(** A key as the function builds it, from a state and a district that do
    not hold the character of the separator. *)
Definition well_formed (k : Key) : Prop :=
  region_id k = make_region_id (state k) (district k) (pin_code k) /\
  has_bar (state k) = false /\
  has_bar (district k) = false.

End Normalizer.

(* ================================================================== *)
(** * Merging the raw parts *)
(* ================================================================== *)

Module MergeParts.

(** What a call of [merge_csv_parts] does: it returns at once when the
    folder holds no file; [pd.concat] raises when no file could be read;
    otherwise the rows that were read are written to the output file. *)
Inductive outcome (A : Type) : Type :=
| NoFiles
| NothingRead
| Saved (rows : list A).

Arguments NoFiles {A}.
Arguments NothingRead {A}.
Arguments Saved {A} rows.

(** A file of the folder is the table that [pd.read_csv] gives, or [None]
    when the read raises. *)
Definition merge_csv_parts {A} (files : list (option (list A))) : outcome A :=
  match files with
  | [] => NoFiles
  | _ :: _ =>
      let df_list :=
        flat_map (fun f => match f with Some temp => [temp] | None => [] end) files in
      match df_list with
      | [] => NothingRead
      | _ :: _ => Saved (concat df_list)
      end
  end.

(** The tables of the files that could be read, in the order of the files. *)
Definition read_tables {A} (files : list (option (list A))) : list (list A) :=
  flat_map (fun f => match f with Some temp => [temp] | None => [] end) files.

End MergeParts.

(* ================================================================== *)
(** * The words of the specification on the priority score *)
(* ================================================================== *)

Module SpecWords.

Import Float.

(** Two cells hold the same value: the same special value, or equal
    numbers. *)
Definition same_value (x y : fval) : Prop :=
  match x, y with
  | NaN, NaN | PInf, PInf | NInf, NInf => True
  | Fin a, Fin b => (a == b)%Q
  | _, _ => False
  end.

(** "The max of a column in the set", in the words of the specification:
    [m] is the value of a cell of the column, and no cell holds a greater
    value; a cell without a value (NaN) is set aside, and the max of a column
    without any value is NaN. *)
Definition max_in_set (xs : list fval) (m : fval) : Prop :=
  (forall v, In v xs -> isna v = false -> fleb v m = true) /\
  (m = NaN \/ exists v, In v xs /\ same_value v m).

End SpecWords.

(* ================================================================== *)
(** * Facts about float values *)
(* ================================================================== *)

Module FloatFacts.

Import Float.

Lemma Qltb_lt (x y : Q) : Qltb x y = true <-> (x < y)%Q.
Proof.
  unfold Qltb. rewrite negb_true_iff, <- not_true_iff_false, Qle_bool_iff.
  split; [apply Qnot_le_lt | apply Qlt_not_le].
Qed.

Lemma fltb_trans (x y z : fval) :
  fltb x y = true -> fltb y z = true -> fltb x z = true.
Proof.
  destruct x, y, z; simpl; try congruence.
  rewrite !Qltb_lt. apply Qlt_trans.
Qed.

End FloatFacts.

(* ================================================================== *)
(** * Facts about groups and sorting *)
(* ================================================================== *)

Module FrameFacts.

Import Frame.

(** ** Groups *)

Lemma count_cons (k k' : string) (keys : list string) :
  count k (k' :: keys) = (if String.eqb k k' then 1 else 0) + count k keys.
Proof. unfold count. simpl. destruct (String.eqb k k'); reflexivity. Qed.

Lemma count_app (k : string) (l1 l2 : list string) :
  count k (l1 ++ l2) = count k l1 + count k l2.
Proof. unfold count. rewrite filter_app, length_app. reflexivity. Qed.

Lemma length_group {A} (keys : list string) (vals : list A) (k : string) :
  length keys = length vals -> length (group keys vals k) = count k keys.
Proof.
  revert vals. induction keys as [|k' keys IH]; intros [|v vals] Hlen;
    simpl in *; try discriminate; try reflexivity.
  rewrite count_cons. injection Hlen as Hlen.
  destruct (String.eqb k k'); simpl; rewrite IH by assumption; reflexivity.
Qed.

Lemma group_map {A B} (g : A -> B) (keys : list string) (vals : list A) (k : string) :
  group keys (map g vals) k = map g (group keys vals k).
Proof.
  revert vals. induction keys as [|k' keys IH]; intros [|v vals]; simpl; try reflexivity.
  destruct (String.eqb k k'); simpl; rewrite IH; reflexivity.
Qed.

Lemma length_groupby_transform {A B} (f : list A -> list B) (d : B)
    (keys : list string) (vals : list A) :
  length (groupby_transform f d keys vals) = length keys.
Proof. unfold groupby_transform. rewrite length_map, length_seq. reflexivity. Qed.

Lemma nth_groupby_transform {A B} (f : list A -> list B) (d : B)
    (keys : list string) (vals : list A) (i : nat) :
  i < length keys ->
  nth i (groupby_transform f d keys vals) d =
  nth (rank keys i) (f (group keys vals (nth i keys EmptyString))) d.
Proof.
  intros Hi. unfold groupby_transform.
  rewrite (nth_indep _ d (nth (rank keys 0) (f (group keys vals (nth 0 keys EmptyString))) d))
    by (rewrite length_map, length_seq; exact Hi).
  rewrite (map_nth (fun i => nth (rank keys i) (f (group keys vals (nth i keys EmptyString))) d)).
  rewrite seq_nth by exact Hi. reflexivity.
Qed.

(** The cell of row [i] is found in the group of its key at the rank of [i]. *)
Lemma nth_rank_group {A} (d : A) (keys : list string) (vals : list A) (i : nat) :
  length keys = length vals -> i < length keys ->
  nth (rank keys i) (group keys vals (nth i keys EmptyString)) d = nth i vals d.
Proof.
  unfold rank. revert vals i.
  induction keys as [|k' keys IH]; intros [|v vals] i Hlen Hi; simpl in *;
    try discriminate; try lia.
  injection Hlen as Hlen. destruct i as [|i].
  - rewrite String.eqb_refl. reflexivity.
  - simpl. rewrite count_cons.
    destruct (String.eqb (nth i keys EmptyString) k'); simpl; apply IH; lia.
Qed.

Lemma skipn_nth_cons {A} (d : A) (a : nat) (l : list A) :
  a < length l -> skipn a l = nth a l d :: skipn (S a) l.
Proof.
  revert a. induction l as [|x l IH]; intros [|a] H; simpl in *; try lia;
    try reflexivity.
  apply IH. lia.
Qed.

Lemma group_scatter {B} (out : string -> list B) (d : B) (k : string) :
  forall suf pre : list string,
    count k pre + count k suf <= length (out k) ->
    group suf
      (map (fun i => nth (rank (pre ++ suf) i) (out (nth i (pre ++ suf) EmptyString)) d)
           (seq (length pre) (length suf))) k
    = firstn (count k suf) (skipn (count k pre) (out k)).
Proof.
  induction suf as [|s suf IH]; intros pre Hlen.
  - reflexivity.
  - cbn [length seq map group].
    rewrite count_cons in Hlen.
    assert (Hpre : count k (pre ++ [s]) = count k pre + (if String.eqb k s then 1 else 0)).
    { rewrite count_app, count_cons. unfold count at 2. simpl. lia. }
    assert (Hrest :
      group suf
        (map (fun i => nth (rank (pre ++ s :: suf) i)
                           (out (nth i (pre ++ s :: suf) EmptyString)) d)
             (seq (S (length pre)) (length suf))) k
      = firstn (count k suf) (skipn (count k (pre ++ [s])) (out k))).
    { replace (pre ++ s :: suf) with ((pre ++ [s]) ++ suf)
        by (rewrite <- app_assoc; reflexivity).
      replace (S (length pre)) with (length (pre ++ [s]))
        by (rewrite length_app; simpl; lia).
      apply IH. rewrite Hpre. lia. }
    rewrite Hrest, Hpre, count_cons.
    destruct (String.eqb k s) eqn:E.
    + apply String.eqb_eq in E. subst s.
      rewrite nth_middle. unfold rank. rewrite nth_middle.
      rewrite firstn_app, Nat.sub_diag, firstn_all. simpl firstn. rewrite app_nil_r.
      rewrite (skipn_nth_cons d (count k pre)) by lia.
      simpl. replace (count k pre + 1) with (S (count k pre)) by lia.
      reflexivity.
    + simpl. rewrite Nat.add_0_r. reflexivity.
Qed.

(** What [transform] means: on every group, the output column is the
    function applied to the group of the input column. *)
Lemma group_groupby_transform {A B} (f : list A -> list B) (d : B)
    (keys : list string) (vals : list A) (k : string) :
  (forall l, length (f l) = length l) ->
  length keys = length vals ->
  group keys (groupby_transform f d keys vals) k = f (group keys vals k).
Proof.
  intros Hf Hlen. unfold groupby_transform.
  pose proof (group_scatter (fun k => f (group keys vals k)) d k keys []) as H.
  simpl in H. rewrite H.
  - rewrite <- (length_group keys vals k Hlen), <- Hf. apply firstn_all.
  - rewrite Hf, length_group by assumption. lia.
Qed.

Lemma nth_error_combine {A B} (l : list A) (l' : list B) (i : nat) (a : A) (b : B) :
  nth_error (combine l l') i = Some (a, b) ->
  nth_error l i = Some a /\ nth_error l' i = Some b.
Proof.
  revert l' i. induction l as [|x l IH]; intros [|y l'] [|i] E; simpl in *;
    try discriminate.
  - injection E as -> ->. auto.
  - apply IH, E.
Qed.

Lemma nth_map_error {A B} (g : A -> B) (d : B) (l : list A) (i : nat) (x : A) :
  nth_error l i = Some x -> nth i (map g l) d = g x.
Proof.
  intros H. apply nth_error_nth. rewrite nth_error_map, H. reflexivity.
Qed.

Lemma rank_lt (keys : list string) (i : nat) :
  i < length keys -> rank keys i < count (nth i keys EmptyString) keys.
Proof.
  intros Hi. unfold rank.
  assert (H : count (nth i keys EmptyString) keys =
              count (nth i keys EmptyString) (firstn i keys ++ skipn i keys))
    by (rewrite firstn_skipn; reflexivity).
  rewrite H, count_app, (skipn_nth_cons EmptyString i keys Hi), count_cons, String.eqb_refl.
  lia.
Qed.

(** ** Sorting *)

Section SortFacts.

Context {A : Type}.
Variable leb : A -> A -> bool.

Let R (a b : A) : Prop := leb a b = true.

Lemma insert_row_perm (x : A) (l : list A) :
  Permutation (insert_row leb x l) (x :: l).
Proof.
  induction l as [|y l IH]; simpl.
  - apply Permutation_refl.
  - destruct (leb y x).
    + eapply perm_trans; [apply perm_skip, IH | apply perm_swap].
    + apply Permutation_refl.
Qed.

Lemma fold_insert_perm (l acc : list A) :
  Permutation (fold_left (fun acc x => insert_row leb x acc) l acc) (acc ++ l).
Proof.
  revert acc. induction l as [|x l IH]; intros acc; simpl.
  - rewrite app_nil_r. apply Permutation_refl.
  - eapply perm_trans; [apply IH|].
    eapply perm_trans; [apply Permutation_app_tail, insert_row_perm|].
    simpl. apply Permutation_middle.
Qed.

Lemma sort_values_perm (l : list A) : Permutation (sort_values leb l) l.
Proof. unfold sort_values. apply (fold_insert_perm l []). Qed.

Lemma sort_values_In (l : list A) (x : A) : In x (sort_values leb l) <-> In x l.
Proof.
  split; apply Permutation_in;
    [apply sort_values_perm | apply Permutation_sym, sort_values_perm].
Qed.

Lemma length_sort_values (l : list A) : length (sort_values leb l) = length l.
Proof. apply Permutation_length, sort_values_perm. Qed.

(** A list that is already in order is left as it is. *)
Lemma insert_row_last (x : A) (l : list A) :
  Forall (fun y => R y x) l -> insert_row leb x l = l ++ [x].
Proof.
  induction 1 as [|y l Hy _ IH]; simpl.
  - reflexivity.
  - unfold R in Hy. rewrite Hy, IH. reflexivity.
Qed.

Lemma fold_insert_sorted (l acc : list A) :
  StronglySorted R (acc ++ l) ->
  fold_left (fun acc x => insert_row leb x acc) l acc = acc ++ l.
Proof.
  revert acc. induction l as [|x l IH]; intros acc Hs; simpl.
  - rewrite app_nil_r. reflexivity.
  - rewrite insert_row_last.
    + rewrite IH; rewrite <- app_assoc; [reflexivity | exact Hs].
    + clear IH. induction acc as [|y acc IHacc]; constructor.
      * simpl in Hs. apply StronglySorted_inv in Hs. destruct Hs as [_ Hall].
        rewrite Forall_forall in Hall. apply Hall, in_or_app. right. left. reflexivity.
      * apply IHacc. simpl in Hs. apply StronglySorted_inv in Hs. apply Hs.
Qed.

Lemma sort_values_sorted_id (l : list A) :
  StronglySorted R l -> sort_values leb l = l.
Proof. intros Hs. unfold sort_values. apply (fold_insert_sorted l []). exact Hs. Qed.

Hypothesis leb_total : forall a b, leb a b = true \/ leb b a = true.
Hypothesis leb_trans : forall a b c, leb a b = true -> leb b c = true -> leb a c = true.

Lemma insert_row_sorted (x : A) (l : list A) :
  StronglySorted R l -> StronglySorted R (insert_row leb x l).
Proof.
  induction 1 as [|y l Hs IH Hall]; simpl.
  - constructor; constructor.
  - destruct (leb y x) eqn:E.
    + constructor; [exact IH|].
      apply (Permutation_Forall (Permutation_sym (insert_row_perm x l))).
      constructor; assumption.
    + assert (Hxy : R x y) by (destruct (leb_total x y); [assumption | congruence]).
      constructor; [constructor; assumption|].
      constructor; [exact Hxy|].
      eapply Forall_impl; [|exact Hall]. intros z Hz. eapply leb_trans; eassumption.
Qed.

Lemma fold_insert_is_sorted (l acc : list A) :
  StronglySorted R acc ->
  StronglySorted R (fold_left (fun acc x => insert_row leb x acc) l acc).
Proof.
  revert acc. induction l as [|x l IH]; intros acc Hs; simpl.
  - exact Hs.
  - apply IH, insert_row_sorted, Hs.
Qed.

Lemma sort_values_sorted (l : list A) : StronglySorted R (sort_values leb l).
Proof. apply fold_insert_is_sorted. constructor. Qed.

End SortFacts.

End FrameFacts.

(* ================================================================== *)
(** * The order of the rows *)
(* ================================================================== *)

Module OrderFacts.

Import Float Frame FrameFacts Step3.

Lemma compare_refl (s : string) : String.compare s s = Eq.
Proof.
  induction s as [|c s IH]; simpl; [reflexivity|].
  unfold Ascii.compare. rewrite N.compare_refl. exact IH.
Qed.

Lemma compare_lt_trans (a b c : string) :
  String.compare a b = Lt -> String.compare b c = Lt -> String.compare a c = Lt.
Proof.
  intros Hab Hbc.
  apply OrderedTypeEx.String_as_OT.cmp_lt.
  apply OrderedTypeEx.String_as_OT.lt_trans with b;
    apply OrderedTypeEx.String_as_OT.cmp_lt; assumption.
Qed.

Lemma key_leb_total (a b : Key) : key_leb a b = true \/ key_leb b a = true.
Proof.
  unfold key_leb. rewrite (String.compare_antisym (region_id b) (region_id a)).
  destruct (String.compare (region_id a) (region_id b)); simpl; auto.
  destruct (Z.leb_spec (yyyymm a) (yyyymm b)); [left; reflexivity|].
  right. apply Z.leb_le. lia.
Qed.

Lemma key_leb_trans (a b c : Key) :
  key_leb a b = true -> key_leb b c = true -> key_leb a c = true.
Proof.
  unfold key_leb.
  destruct (String.compare (region_id a) (region_id b)) eqn:Eab; try discriminate;
    destruct (String.compare (region_id b) (region_id c)) eqn:Ebc; try discriminate;
    intros Hab Hbc.
  - apply String.compare_eq_iff in Eab, Ebc. rewrite Eab, Ebc, compare_refl.
    apply Z.leb_le. apply Z.leb_le in Hab, Hbc. lia.
  - apply String.compare_eq_iff in Eab. rewrite Eab, Ebc. reflexivity.
  - apply String.compare_eq_iff in Ebc. rewrite <- Ebc, Eab. reflexivity.
  - rewrite (compare_lt_trans _ _ _ Eab Ebc). reflexivity.
Qed.

Lemma key_leb_region (a b : Key) :
  key_leb a b = true -> String.leb (region_id a) (region_id b) = true.
Proof.
  unfold key_leb, String.leb.
  destruct (String.compare (region_id a) (region_id b)); auto.
Qed.

(** Inside one region the order is the order of the months. *)
Lemma key_leb_month (a b : Key) :
  key_leb a b = true -> region_id a = region_id b -> (yyyymm a <= yyyymm b)%Z.
Proof.
  unfold key_leb. intros H E. rewrite E, compare_refl in H. apply Z.leb_le, H.
Qed.

Lemma StronglySorted_map {A B} (f : A -> B) (R : A -> A -> Prop) (S : B -> B -> Prop)
    (l : list A) :
  (forall a b, R a b -> S (f a) (f b)) ->
  StronglySorted R l -> StronglySorted S (map f l).
Proof.
  intros HRS. induction 1 as [|x l Hs IH Hall]; simpl; constructor.
  - exact IH.
  - apply Forall_map. eapply Forall_impl; [|exact Hall]. intros y. apply HRS.
Qed.

Lemma StronglySorted_nth {A} (R : A -> A -> Prop) (d : A) (l : list A) :
  StronglySorted R l ->
  forall a b, a < b -> b < length l -> R (nth a l d) (nth b l d).
Proof.
  induction 1 as [|x l Hs IH Hall]; intros a b Hab Hb; simpl in Hb; [lia|].
  destruct b as [|b]; [lia|]. destruct a as [|a]; simpl.
  - rewrite Forall_forall in Hall. apply Hall, nth_In. lia.
  - apply IH; lia.
Qed.

(** In a column of keys in order, a row whose key differs from the key of
    the row before is the first of its group; otherwise it follows that
    row in the group. *)
Lemma count_zero (k : string) (l : list string) :
  (forall x, In x l -> x <> k) -> count k l = 0.
Proof.
  induction l as [|y l IH]; intros H; [reflexivity|].
  rewrite count_cons, IH by (intros x Hx; apply H; right; exact Hx).
  destruct (String.eqb k y) eqn:E; [|reflexivity].
  apply String.eqb_eq in E. exfalso. apply (H y); [left; reflexivity | congruence].
Qed.


Lemma rank_same (keys : list string) (j : nat) :
  S j < length keys ->
  nth j keys EmptyString = nth (S j) keys EmptyString ->
  rank keys (S j) = S (rank keys j).
Proof.
  intros Hj E. unfold rank. rewrite <- E.
  assert (H : firstn (S j) keys = firstn j keys ++ [nth j keys EmptyString]).
  { clear E. revert j Hj. induction keys as [|k keys IH]; intros j Hj; simpl in Hj; [lia|].
    destruct j as [|j]; simpl.
    - destruct keys; [simpl in Hj; lia | reflexivity].
    - f_equal. apply IH. lia. }
  rewrite H, count_app, count_cons, String.eqb_refl. unfold count at 2. simpl. lia.
Qed.

Lemma rank_new (keys : list string) (j : nat) :
  StronglySorted (fun a b => String.leb a b = true) keys ->
  S j < length keys ->
  nth j keys EmptyString <> nth (S j) keys EmptyString ->
  rank keys (S j) = 0.
Proof.
  intros Hs Hj Hne. unfold rank. apply count_zero. intros x Hx E.
  apply (In_nth _ _ EmptyString) in Hx. destruct Hx as [a [Ha Hxa]].
  rewrite length_firstn in Ha.
  rewrite nth_firstn in Hxa.
  destruct (a <? S j) eqn:Ea; [|apply Nat.ltb_ge in Ea; lia].
  apply Hne. destruct (Nat.eq_dec a j) as [->|Haj]; [congruence|].
  apply String.leb_antisym.
  - apply (StronglySorted_nth _ EmptyString _ Hs); lia.
  - rewrite <- E, <- Hxa. apply (StronglySorted_nth _ EmptyString _ Hs); lia.
Qed.

End OrderFacts.

(* ================================================================== *)
(** * Step 3: merge, baseline and ratio *)
(* ================================================================== *)

Module Step3Facts.

Import Float Frame FrameFacts FloatFacts Step3 OrderFacts.

(** ** Keys *)

Lemma key_eqb_eq (a b : Key) : key_eqb a b = true <-> a = b.
Proof.
  destruct a as [r1 s1 d1 p1 m1], b as [r2 s2 d2 p2 m2]. unfold key_eqb. simpl.
  rewrite !andb_true_iff, !String.eqb_eq, Z.eqb_eq.
  split; [intros [[[[-> ->] ->] ->] ->]; reflexivity | intros H; injection H; auto].
Qed.

Lemma key_eqb_refl (a : Key) : key_eqb a a = true.
Proof. apply key_eqb_eq. reflexivity. Qed.

Lemma matches_app {V} (k : Key) (t1 t2 : list (Key * V)) :
  matches k (t1 ++ t2) = matches k t1 ++ matches k t2.
Proof. apply filter_app. Qed.

Lemma matches_cons {V} (k : Key) (x : Key * V) (t : list (Key * V)) :
  matches k (x :: t) = if key_eqb k (fst x) then x :: matches k t else matches k t.
Proof. reflexivity. Qed.

Lemma matches_key {V} (k : Key) (t : list (Key * V)) (x : Key * V) :
  In x (matches k t) -> fst x = k.
Proof.
  unfold matches. rewrite filter_In. intros [_ H]. symmetry. apply key_eqb_eq, H.
Qed.

Lemma matches_map_snd {V W} (g : V -> W) (k : Key) (t : list (Key * V)) :
  matches k (map (fun row => (fst row, g (snd row))) t)
  = map (fun row => (fst row, g (snd row))) (matches k t).
Proof.
  induction t as [|x t IH]; [reflexivity|].
  cbn [map]. rewrite !matches_cons. cbn [fst].
  destruct (key_eqb k (fst x)); cbn [map]; rewrite IH; reflexivity.
Qed.

(** ** Monthly aggregation *)

Lemma matches_add_to (k k' : Key) (a : Q) (acc : list (Key * Q)) :
  length (matches k (add_to k' a acc)) =
  if key_eqb k k' then Nat.max 1 (length (matches k acc)) else length (matches k acc).
Proof.
  induction acc as [|[k0 s] acc IH]; cbn [add_to].
  - rewrite matches_cons. cbn [fst]. destruct (key_eqb k k'); reflexivity.
  - destruct (key_eqb k' k0) eqn:E0.
    + apply key_eqb_eq in E0. subst k0. rewrite !matches_cons. cbn [fst].
      destruct (key_eqb k k'); cbn [length]; [lia | reflexivity].
    + rewrite !matches_cons. cbn [fst].
      destruct (key_eqb k k0) eqn:E1; cbn [length]; rewrite IH.
      * destruct (key_eqb k k') eqn:E2; [|reflexivity].
        apply key_eqb_eq in E1, E2. subst. rewrite key_eqb_refl in E0. discriminate.
      * reflexivity.
Qed.

Lemma unique_keys_groupby_sum (rows : Feed) : unique_keys (groupby_sum rows).
Proof.
  unfold groupby_sum.
  assert (H : forall acc : list (Key * Q), unique_keys acc ->
            unique_keys (fold_left (fun acc row => add_to (fst row) (snd row) acc) rows acc)).
  { induction rows as [|[k a] rows IH]; intros acc Hacc; simpl; [exact Hacc|].
    apply IH. intros k0. rewrite matches_add_to. specialize (Hacc k0).
    destruct (key_eqb k0 k); lia. }
  apply H. intros k. simpl. lia.
Qed.

(** ** Outer merge *)

Lemma has_key_spec {V} (k : Key) (t : list (Key * V)) :
  has_key k t = match matches k t with [] => false | _ :: _ => true end.
Proof.
  induction t as [|x t IH]; [reflexivity|].
  rewrite matches_cons. unfold has_key in *. cbn [existsb].
  destruct (key_eqb k (fst x)); [reflexivity | exact IH].
Qed.

Lemma matches_all {V} (k k' : Key) (rows : list (Key * V)) :
  (forall x, In x rows -> fst x = k') ->
  matches k rows = if key_eqb k k' then rows else [].
Proof.
  induction rows as [|x rows IH]; intros H.
  - destruct (key_eqb k k'); reflexivity.
  - rewrite matches_cons, IH by (intros y Hy; apply H; right; exact Hy).
    rewrite (H x) by (left; reflexivity).
    destruct (key_eqb k k'); reflexivity.
Qed.

Section MergeFacts.

Context {X Y : Type}.
Variable (nax : X) (nay : Y).

(** The rows of one key in the merged frame, from the rows of that key on
    the two sides. *)
Lemma matches_merge_outer (k : Key) (L : list (Key * X)) (R : list (Key * Y)) :
  matches k (merge_outer nax nay L R) =
  flat_map (fun l =>
              match matches k R with
              | [] => [(fst l, (snd l, nay))]
              | ms => map (fun r => (fst l, (snd l, snd r))) ms
              end) (matches k L)
  ++ (if has_key k L then []
      else map (fun r => (fst r, (nax, snd r))) (matches k R)).
Proof.
  unfold merge_outer. rewrite matches_app. f_equal.
  - induction L as [|l L IH]; [reflexivity|].
    cbn [flat_map]. rewrite matches_app, IH, matches_cons.
    rewrite (matches_all k (fst l)).
    + destruct (key_eqb k (fst l)) eqn:E; [|reflexivity].
      apply key_eqb_eq in E. rewrite E. reflexivity.
    + intros x Hx. destruct (matches (fst l) R) as [|m ms].
      * destruct Hx as [<-|[]]. reflexivity.
      * apply in_map_iff in Hx. destruct Hx as [r [<- _]]. reflexivity.
  - induction R as [|r R IH]; [destruct (has_key k L); reflexivity|].
    cbn [flat_map]. rewrite matches_app, IH, matches_cons.
    destruct (key_eqb k (fst r)) eqn:E.
    + apply key_eqb_eq in E. rewrite <- E.
      destruct (has_key k L); [reflexivity|].
      cbn [matches filter fst map app]. rewrite <- ?E, key_eqb_refl. reflexivity.
    + destruct (has_key (fst r) L); [reflexivity|].
      cbn [matches filter fst app]. rewrite E. reflexivity.
Qed.

Lemma unique_keys_merge_outer (L : list (Key * X)) (R : list (Key * Y)) :
  unique_keys L -> unique_keys R -> unique_keys (merge_outer nax nay L R).
Proof.
  intros HL HR k. rewrite matches_merge_outer, has_key_spec.
  specialize (HL k). specialize (HR k).
  destruct (matches k L) as [|l [|l' ls]]; simpl in HL; try lia;
    destruct (matches k R) as [|r [|r' rs]]; simpl in HR; try lia; simpl; lia.
Qed.

End MergeFacts.

(** The rows of one key after the merge, the zero fill and the total. *)
Lemma merged_frame_key (enrol_m demo_m bio_m : list (Key * Q)) (k : Key) :
  unique_keys enrol_m -> unique_keys demo_m -> unique_keys bio_m ->
  filter (fun r => key_eqb k (m_key r)) (merged_frame enrol_m demo_m bio_m) =
  if has_key k enrol_m || has_key k demo_m || has_key k bio_m
  then [mkMerged k (Fin (activity_or_zero k enrol_m))
                   (Fin (activity_or_zero k demo_m))
                   (Fin (activity_or_zero k bio_m))
                   (fadd (fadd (Fin (activity_or_zero k enrol_m))
                               (Fin (activity_or_zero k demo_m)))
                         (Fin (activity_or_zero k bio_m)))]
  else [].
Proof.
  intros He Hd Hb. unfold merged_frame.
  set (g := fun row : Key * (fval * fval * fval) =>
              let '(k, (e, d, b)) := row in
              mkMerged k (fillna (Fin 0) e) (fillna (Fin 0) d) (fillna (Fin 0) b)
                       (fadd (fadd (fillna (Fin 0) e) (fillna (Fin 0) d)) (fillna (Fin 0) b))).
  assert (Hg : forall df,
            filter (fun r => key_eqb k (m_key r)) (map g df) = map g (matches k df)).
  { induction df as [|[k0 [[e d] b]] df IH]; [reflexivity|].
    cbn [map filter]. rewrite matches_cons. cbn [g m_key fst].
    destruct (key_eqb k k0); cbn [map]; rewrite IH; reflexivity. }
  rewrite Hg, !matches_merge_outer, !has_key_spec, matches_merge_outer, has_key_spec.
  unfold as_float. rewrite !(matches_map_snd Fin). unfold activity_or_zero.
  pose proof (matches_key k enrol_m) as Ke.
  pose proof (matches_key k demo_m) as Kd.
  pose proof (matches_key k bio_m) as Kb.
  specialize (He k). specialize (Hd k). specialize (Hb k).
  destruct (matches k enrol_m) as [|[ke e] [|e' es]]; simpl in He; try lia;
    destruct (matches k demo_m) as [|[kd d] [|d' ds]]; simpl in Hd; try lia;
    destruct (matches k bio_m) as [|[kb b] [|b' bs]]; simpl in Hb; try lia;
    try (specialize (Ke _ (or_introl eq_refl)); simpl in Ke; subst ke);
    try (specialize (Kd _ (or_introl eq_refl)); simpl in Kd; subst kd);
    try (specialize (Kb _ (or_introl eq_refl)); simpl in Kb; subst kb);
    reflexivity.
Qed.

(** ** The rows of the series *)

Lemma series_of_rows (df : list MergedRow) (i : nat) (r : SeriesRow) :
  nth_error (series_of df) i = Some r ->
  exists x,
    nth_error (sorted_frame df) i = Some x /\
    r = mkSeries (m_key x) (m_enrol x) (m_demo x) (m_bio x) (m_total x)
                 (nth i (baseline_col df) NaN)
                 (ratio (m_total x) (nth i (baseline_col df) NaN)).
Proof.
  unfold series_of. fold (sorted_frame df). fold (baseline_col df).
  intros H. rewrite nth_error_map in H.
  destruct (nth_error (combine _ _) i) as [[x b]|] eqn:E; [|discriminate].
  simpl in H. injection H as <-.
  apply nth_error_combine in E. destruct E as [Hx Hb].
  exists x. split; [exact Hx|].
  rewrite (nth_error_nth _ _ NaN Hb). reflexivity.
Qed.

Lemma length_baseline_col (df : list MergedRow) :
  length (baseline_col df) = length (sorted_frame df).
Proof. unfold baseline_col. rewrite length_groupby_transform, length_map. reflexivity. Qed.

Lemma map_combine_fst {A B C} (h : A -> C) (g : A * B -> C) (l : list A) (l' : list B) :
  (forall x b, g (x, b) = h x) ->
  length l <= length l' ->
  map g (combine l l') = map h l.
Proof.
  intros Hg. revert l'. induction l as [|x l IH]; intros [|b l'] Hlen; simpl in *;
    try reflexivity; try lia.
  rewrite Hg, IH by lia. reflexivity.
Qed.

Lemma series_of_regions (df : list MergedRow) :
  map region (series_of df) = map (fun r => region_id (m_key r)) (sorted_frame df).
Proof.
  unfold series_of. fold (sorted_frame df). fold (baseline_col df).
  rewrite map_map. apply map_combine_fst.
  - intros x b. reflexivity.
  - rewrite length_baseline_col. lia.
Qed.

Lemma series_of_totals (df : list MergedRow) :
  map total_activity (series_of df) = map m_total (sorted_frame df).
Proof.
  unfold series_of. fold (sorted_frame df). fold (baseline_col df).
  rewrite map_map. apply map_combine_fst.
  - intros x b. reflexivity.
  - rewrite length_baseline_col. lia.
Qed.

Lemma series_of_keys (df : list MergedRow) :
  map key (series_of df) = map m_key (sorted_frame df).
Proof.
  unfold series_of. fold (sorted_frame df). fold (baseline_col df).
  rewrite map_map. apply map_combine_fst.
  - intros x b. reflexivity.
  - rewrite length_baseline_col. lia.
Qed.

(** ** Suppression ratio *)

(** C6: the suppression ratio of a row of the series is its total activity
    divided by its baseline, except that a quotient that is NaN or infinite
    is replaced by 0; the column holds no NaN and no infinity. *)
Theorem suppression_ratio_normalized (df : list MergedRow) (r : SeriesRow) :
  In r (series_of df) ->
  suppression_ratio r =
    (let q := fdiv (total_activity r) (baseline_total_ma6 r) in
     if isna q || isinf q then Fin 0 else q) /\
  isna (suppression_ratio r) = false /\
  isinf (suppression_ratio r) = false.
Proof.
  intros H. apply In_nth_error in H. destruct H as [i H].
  apply series_of_rows in H. destruct H as [x [_ ->]].
  cbn [suppression_ratio total_activity baseline_total_ma6]. unfold ratio.
  destruct (fdiv (m_total x) (nth i (baseline_col df) NaN)); simpl; auto.
Qed.

Lemma suppression_ratio_normalized_witness :
  In Sample.howrah_third_month (series_of Sample.merged) /\
  suppression_ratio Sample.howrah_third_month =
    (let q := fdiv (total_activity Sample.howrah_third_month)
                   (baseline_total_ma6 Sample.howrah_third_month) in
     if isna q || isinf q then Fin 0 else q) /\
  isna (suppression_ratio Sample.howrah_third_month) = false /\
  isinf (suppression_ratio Sample.howrah_third_month) = false.
Proof.
  assert (H : In Sample.howrah_third_month (series_of Sample.merged)).
  { vm_compute. do 11 right. left. reflexivity. }
  split; [exact H | exact (suppression_ratio_normalized _ _ H)].
Defined.

Lemma group_In {A} (keys : list string) (vals : list A) (k : string) (v : A) :
  In v (group keys vals k) -> In v vals.
Proof.
  revert vals. induction keys as [|k' keys IH]; intros [|x vals] H; simpl in *;
    try contradiction.
  destruct (String.eqb k k').
  - destruct H as [H|H]; [left; exact H | right; apply IH, H].
  - right. apply IH, H.
Qed.

(** ** Rolling mean *)

Lemma nth_rolling_mean (w min_periods n : nat) (xs : list fval) :
  n < length xs ->
  nth n (rolling_mean w min_periods xs) NaN = mean_min min_periods (window w n xs).
Proof.
  intros Hn. unfold rolling_mean.
  rewrite (nth_indep _ NaN (mean_min min_periods (window w 0 xs)))
    by (rewrite length_map, length_seq; exact Hn).
  rewrite (map_nth (fun i => mean_min min_periods (window w i xs))).
  rewrite seq_nth by exact Hn. reflexivity.
Qed.

Lemma length_rolling_mean (w min_periods : nat) (xs : list fval) :
  length (rolling_mean w min_periods xs) = length xs.
Proof. unfold rolling_mean. rewrite length_map, length_seq. reflexivity. Qed.


Lemma window_In {A} (w n : nat) (xs : list A) (x : A) :
  In x (window w n xs) -> In x xs.
Proof.
  unfold window. intros H.
  rewrite <- (firstn_skipn (n + 1) xs). apply in_or_app. left.
  rewrite <- (firstn_skipn (n + 1 - w) (firstn (n + 1) xs)). apply in_or_app. right.
  exact H.
Qed.

Lemma StronglySorted_of_map {A B} (f : A -> B) (S : B -> B -> Prop) (l : list A) :
  StronglySorted S (map f l) -> StronglySorted (fun a b => S (f a) (f b)) l.
Proof.
  induction l as [|x l IH]; intros H; [constructor|].
  simpl in H. apply StronglySorted_inv in H. destruct H as [Hs Hall].
  constructor; [apply IH, Hs|].
  rewrite Forall_map in Hall. exact Hall.
Qed.

Lemma sorted_frame_sorted (df : list MergedRow) :
  StronglySorted (fun a b => key_leb (m_key a) (m_key b) = true) (sorted_frame df).
Proof.
  apply (sort_values_sorted (fun a b => key_leb (m_key a) (m_key b))).
  - intros a b. apply key_leb_total.
  - intros a b c. apply key_leb_trans.
Qed.

(** The series is in (region, month) order. *)
Lemma series_of_sorted (df : list MergedRow) :
  StronglySorted (fun a b => key_leb (key a) (key b) = true) (series_of df).
Proof.
  apply (StronglySorted_of_map key (fun a b => key_leb a b = true)).
  rewrite series_of_keys.
  apply (StronglySorted_map m_key (fun a b => key_leb (m_key a) (m_key b) = true)).
  - auto.
  - apply sorted_frame_sorted.
Qed.

(** ** Baseline *)

(** The baseline of a row is the mean of the window that ends at the rank
    of the row in the totals of its region. *)
Lemma baseline_row (df : list MergedRow) (i : nat) (r : SeriesRow) :
  nth_error (series_of df) i = Some r ->
  let t := series_of df in
  let n := rank (map region t) i in
  let totals := group (map region t) (map total_activity t) (region r) in
  n < length totals /\
  baseline_total_ma6 r = mean_min 3 (window 6 n totals).
Proof.
  intros Hr. cbv zeta.
  pose proof (series_of_rows _ _ _ Hr) as [x [Hx Er]].
  rewrite series_of_regions, series_of_totals.
  set (keys := map (fun r => region_id (m_key r)) (sorted_frame df)).
  set (vals := map m_total (sorted_frame df)).
  assert (Hi : i < length keys).
  { unfold keys. rewrite length_map. apply nth_error_Some. congruence. }
  assert (Hlen : length keys = length vals) by (unfold keys, vals; rewrite !length_map; reflexivity).
  assert (Hk : nth i keys EmptyString = region r).
  { unfold keys. rewrite (nth_map_error _ _ _ _ _ Hx), Er. reflexivity. }
  assert (Hn : rank keys i < length (group keys vals (region r))).
  { rewrite length_group by exact Hlen. rewrite <- Hk. apply rank_lt, Hi. }
  split; [exact Hn|].
  rewrite Er at 1. cbn [baseline_total_ma6]. unfold baseline_col. fold keys. fold vals.
  rewrite nth_groupby_transform by exact Hi. rewrite Hk.
  apply nth_rolling_mean, Hn.
Qed.









(** ** Merge completeness *)

Lemma has_key_In {V} (k : Key) (t : list (Key * V)) :
  has_key k t = true <-> In k (map fst t).
Proof.
  unfold has_key. rewrite existsb_exists, in_map_iff.
  split; intros [x [H1 H2]]; exists x.
  - apply key_eqb_eq in H2. auto.
  - split; [exact H2 | apply key_eqb_eq; auto].
Qed.

Lemma Permutation_filter {A} (p : A -> bool) (l l' : list A) :
  Permutation l l' -> Permutation (filter p l) (filter p l').
Proof.
  induction 1 as [|x l l' _ IH|x y l|l l' l'' _ IH1 _ IH2]; simpl.
  - constructor.
  - destruct (p x); [constructor|]; exact IH.
  - destruct (p x), (p y); try apply Permutation_refl. apply perm_swap.
  - eapply perm_trans; eassumption.
Qed.

Lemma filter_combine_nil {A B C} (p : A -> bool) (q : C -> bool) (g : A * B -> C)
    (l : list A) (l' : list B) :
  (forall x b, q (g (x, b)) = p x) ->
  filter p l = [] -> filter q (map g (combine l l')) = [].
Proof.
  intros Hq. revert l'. induction l as [|x l IH]; intros [|b l'] H; simpl in *;
    try reflexivity.
  rewrite Hq. destruct (p x); [discriminate | apply IH, H].
Qed.

Lemma filter_combine_one {A B C} (p : A -> bool) (q : C -> bool) (g : A * B -> C)
    (l : list A) (l' : list B) (x : A) :
  (forall x b, q (g (x, b)) = p x) ->
  length l = length l' ->
  filter p l = [x] -> exists b, filter q (map g (combine l l')) = [g (x, b)].
Proof.
  intros Hq. revert l'. induction l as [|y l IH]; intros [|b l'] Hlen H; simpl in *;
    try discriminate.
  rewrite Hq. destruct (p y).
  - injection H as -> H. exists b. f_equal. apply (filter_combine_nil p); assumption.
  - apply IH; [lia | exact H].
Qed.

(** C8: a key that is in at least one of the three monthly aggregates has
    exactly one row in the series; each activity of the row is the one of the
    aggregate, 0 when the aggregate has no row for the key, and the total is
    the sum of the three after this fill. *)
Theorem merge_complete (enrol demo bio : Feed) (k : Key) :
  In k (map fst (groupby_sum enrol)) \/
  In k (map fst (groupby_sum demo)) \/
  In k (map fst (groupby_sum bio)) ->
  exists r : SeriesRow,
    filter (fun x => key_eqb k (key x)) (step3 enrol demo bio) = [r] /\
    key r = k /\
    enrol_activity r = Fin (activity_or_zero k (groupby_sum enrol)) /\
    demo_activity r = Fin (activity_or_zero k (groupby_sum demo)) /\
    bio_activity r = Fin (activity_or_zero k (groupby_sum bio)) /\
    total_activity r =
      fadd (fadd (enrol_activity r) (demo_activity r)) (bio_activity r) /\
    total_activity r =
      Fin (activity_or_zero k (groupby_sum enrol)
           + activity_or_zero k (groupby_sum demo)
           + activity_or_zero k (groupby_sum bio)).
Proof.
  intros Hin.
  assert (Hany : has_key k (groupby_sum enrol) || has_key k (groupby_sum demo)
                 || has_key k (groupby_sum bio) = true).
  { rewrite !orb_true_iff, !has_key_In. tauto. }
  pose proof (merged_frame_key (groupby_sum enrol) (groupby_sum demo) (groupby_sum bio) k
                (unique_keys_groupby_sum _) (unique_keys_groupby_sum _)
                (unique_keys_groupby_sum _)) as Hm.
  rewrite Hany in Hm.
  unfold step3.
  set (df := merged_frame (groupby_sum enrol) (groupby_sum demo) (groupby_sum bio)) in *.
  assert (Hs : Permutation (filter (fun r => key_eqb k (m_key r)) df)
                           (filter (fun r => key_eqb k (m_key r)) (sorted_frame df))).
  { apply Permutation_filter, Permutation_sym.
    apply (sort_values_perm (fun a b => key_leb (m_key a) (m_key b))). }
  rewrite Hm in Hs. apply Permutation_length_1_inv in Hs.
  unfold series_of. fold (sorted_frame df). fold (baseline_col df).
  destruct (filter_combine_one (fun r => key_eqb k (m_key r)) (fun x => key_eqb k (key x))
              (fun rb : MergedRow * fval =>
                 let '(r, b) := rb in
                 mkSeries (m_key r) (m_enrol r) (m_demo r) (m_bio r) (m_total r) b
                          (ratio (m_total r) b))
              (sorted_frame df) (baseline_col df) _
              (fun x b => eq_refl) (eq_sym (length_baseline_col df)) Hs) as [b Hb].
  eexists. split; [exact Hb|].
  cbn. repeat split; reflexivity.
Qed.

Lemma merge_complete_witness :
  (In (Sample.gangtok 6) (map fst (groupby_sum Sample.enrol)) \/
   In (Sample.gangtok 6) (map fst (groupby_sum Sample.demo)) \/
   In (Sample.gangtok 6) (map fst (groupby_sum Sample.bio))) /\
  exists r : SeriesRow,
    filter (fun x => key_eqb (Sample.gangtok 6) (key x))
           (step3 Sample.enrol Sample.demo Sample.bio) = [r] /\
    key r = Sample.gangtok 6 /\
    enrol_activity r = Fin (activity_or_zero (Sample.gangtok 6) (groupby_sum Sample.enrol)) /\
    demo_activity r = Fin (activity_or_zero (Sample.gangtok 6) (groupby_sum Sample.demo)) /\
    bio_activity r = Fin (activity_or_zero (Sample.gangtok 6) (groupby_sum Sample.bio)) /\
    total_activity r =
      fadd (fadd (enrol_activity r) (demo_activity r)) (bio_activity r) /\
    total_activity r =
      Fin (activity_or_zero (Sample.gangtok 6) (groupby_sum Sample.enrol)
           + activity_or_zero (Sample.gangtok 6) (groupby_sum Sample.demo)
           + activity_or_zero (Sample.gangtok 6) (groupby_sum Sample.bio)).
Proof.
  assert (H : In (Sample.gangtok 6) (map fst (groupby_sum Sample.enrol)) \/
              In (Sample.gangtok 6) (map fst (groupby_sum Sample.demo)) \/
              In (Sample.gangtok 6) (map fst (groupby_sum Sample.bio))).
  { right. right. vm_compute. left. reflexivity. }
  split; [exact H | exact (merge_complete _ _ _ _ H)].
Defined.

End Step3Facts.

(* ================================================================== *)
(** * Step 4: run counters, states and alerts *)
(* ================================================================== *)

Module Step4Facts.

Import Float Frame FrameFacts FloatFacts Step3 Step4 OrderFacts.

(** ** The loop of [compute_consecutive_runs] *)

Lemma fold_run_step (fs : list bool) (count : nat) (out : list nat) :
  snd (fold_left run_step fs (count, out)) = out ++ runs_from count fs.
Proof.
  revert count out. induction fs as [|v fs IH]; intros count out; simpl.
  - rewrite app_nil_r. reflexivity.
  - rewrite IH, <- app_assoc. reflexivity.
Qed.

Lemma runs_from_eq (fs : list bool) : compute_consecutive_runs fs = runs_from 0 fs.
Proof. unfold compute_consecutive_runs. rewrite fold_run_step. reflexivity. Qed.

(** The example of the docstring. *)
Example runs_of_docstring :
  compute_consecutive_runs [false; true; true; false; true] = [0; 1; 2; 0; 1].
Proof. reflexivity. Qed.

Lemma length_runs_from (count : nat) (fs : list bool) :
  length (runs_from count fs) = length fs.
Proof.
  revert count. induction fs as [|v fs IH]; intros count; simpl; [|rewrite IH]; reflexivity.
Qed.

Lemma length_runs (fs : list bool) : length (compute_consecutive_runs fs) = length fs.
Proof. rewrite runs_from_eq. apply length_runs_from. Qed.

(** The counter after a cell, from the counter before it. *)
Lemma nth_runs_from (fs : list bool) (count i : nat) :
  i < length fs ->
  nth i (runs_from count fs) 0 =
  if nth i fs false
  then match i with 0 => count | S j => nth j (runs_from count fs) 0 end + 1
  else 0.
Proof.
  revert count i. induction fs as [|v fs IH]; intros count i Hi; simpl in Hi; [lia|].
  destruct i as [|i]; [reflexivity|].
  cbn [runs_from nth]. rewrite IH by lia.
  destruct i; reflexivity.
Qed.

Lemma nth_runs (fs : list bool) (i : nat) :
  i < length fs ->
  nth i (compute_consecutive_runs fs) 0 =
  if nth i fs false
  then match i with 0 => 0 | S j => nth j (compute_consecutive_runs fs) 0 end + 1
  else 0.
Proof. rewrite runs_from_eq. apply nth_runs_from. Qed.

(** A flag that implies another one has the shorter runs. *)
Lemma runs_from_le {A} (f g : A -> bool) (l : list A) :
  (forall x, f x = true -> g x = true) ->
  forall (c1 c2 i : nat), c1 <= c2 ->
    nth i (runs_from c1 (map f l)) 0 <= nth i (runs_from c2 (map g l)) 0.
Proof.
  intros Hfg. induction l as [|x l IH]; intros c1 c2 i Hc; simpl.
  - destruct i; lia.
  - specialize (Hfg x).
    destruct i as [|i].
    + destruct (f x), (g x); first [lia | discriminate Hfg; reflexivity].
    + apply IH. destruct (f x), (g x); first [lia | discriminate Hfg; reflexivity].
Qed.

(** ** The rows of the final table *)

Lemma step4_rows (input : list SeriesRow) (i : nat) (r : FinalRow) :
  nth_error (step4 input) i = Some r ->
  exists x,
    nth_error (sorted_input input) i = Some x /\
    r = finalize x (nth i (moderate_col input) 0) (nth i (severe_col input) 0).
Proof.
  unfold step4. fold (sorted_input input). fold (moderate_col input). fold (severe_col input).
  intros H. rewrite nth_error_map in H.
  destruct (nth_error (combine _ _) i) as [[x [m s]]|] eqn:E; [|discriminate].
  simpl in H. injection H as <-.
  apply nth_error_combine in E. destruct E as [Hx Hms].
  apply nth_error_combine in Hms. destruct Hms as [Hm Hs].
  exists x. split; [exact Hx|].
  rewrite (nth_error_nth _ _ 0 Hm), (nth_error_nth _ _ 0 Hs). reflexivity.
Qed.

Lemma step4_finalize (input : list SeriesRow) (r : FinalRow) :
  In r (step4 input) -> exists x m s, r = finalize x m s.
Proof.
  intros H. apply In_nth_error in H. destruct H as [i H].
  apply step4_rows in H. destruct H as [x [_ ->]]. eauto.
Qed.

Lemma length_step4 (input : list SeriesRow) : length (step4 input) = length input.
Proof.
  unfold step4. rewrite length_map, !length_combine, !length_groupby_transform,
    !length_map, length_sort_values. lia.
Qed.

(** ** Silence state *)

(** C3: on every record of the final table the state is Severe exactly when
    the severe run is at least 3; it is Moderate exactly when that fails and
    the moderate run is at least 2; it is Normal exactly when both fail. *)
Theorem silence_state_precedence (input : list SeriesRow) (r : FinalRow) :
  In r (step4 input) ->
  (silence_state r = Severe <-> 3 <= severe_run r) /\
  (silence_state r = Moderate <-> severe_run r < 3 /\ 2 <= moderate_run r) /\
  (silence_state r = Normal <-> severe_run r < 3 /\ moderate_run r < 2).
Proof.
  intros H. apply step4_finalize in H. destruct H as [x [m [s ->]]].
  simpl. unfold label.
  destruct (Nat.leb_spec 3 s), (Nat.leb_spec 2 m);
    repeat split; intros; try discriminate; try lia; try reflexivity.
Qed.

Lemma silence_state_precedence_witness :
  In Sample.gangtok_last (step4 Sample.series) /\
  (silence_state Sample.gangtok_last = Severe <-> 3 <= severe_run Sample.gangtok_last) /\
  (silence_state Sample.gangtok_last = Moderate <->
     severe_run Sample.gangtok_last < 3 /\ 2 <= moderate_run Sample.gangtok_last) /\
  (silence_state Sample.gangtok_last = Normal <->
     severe_run Sample.gangtok_last < 3 /\ moderate_run Sample.gangtok_last < 2).
Proof.
  assert (H : In Sample.gangtok_last (step4 Sample.series)).
  { vm_compute. do 8 right. left. reflexivity. }
  split; [exact H | exact (silence_state_precedence _ _ H)].
Defined.

(** ** Alerts *)

(** C4: on every record of the final table the alert flag is 1 exactly when
    the state is Severe, or the moderate run is 2, or the severe run is 3,
    and it is 0 on every other record. *)
Theorem alert_flag_union (input : list SeriesRow) (r : FinalRow) :
  In r (step4 input) ->
  (alert_flag r = 1 <->
     silence_state r = Severe \/ moderate_run r = 2 \/ severe_run r = 3) /\
  (alert_flag r = 0 <->
     ~ (silence_state r = Severe \/ moderate_run r = 2 \/ severe_run r = 3)).
Proof.
  intros H. apply step4_finalize in H. destruct H as [x [m [s ->]]].
  simpl. unfold alert.
  destruct (label m s) eqn:El; simpl;
    destruct (Nat.eqb_spec m 2), (Nat.eqb_spec s 3);
    repeat split; intros; try discriminate; try lia; try reflexivity;
    try tauto; intuition (try congruence; try lia).
Qed.

Lemma alert_flag_union_witness :
  In Sample.barpeta_second (step4 Sample.series) /\
  (alert_flag Sample.barpeta_second = 1 <->
     silence_state Sample.barpeta_second = Severe \/
     moderate_run Sample.barpeta_second = 2 \/ severe_run Sample.barpeta_second = 3) /\
  (alert_flag Sample.barpeta_second = 0 <->
     ~ (silence_state Sample.barpeta_second = Severe \/
        moderate_run Sample.barpeta_second = 2 \/ severe_run Sample.barpeta_second = 3)).
Proof.
  assert (H : In Sample.barpeta_second (step4 Sample.series)).
  { vm_compute. right. left. reflexivity. }
  split; [exact H | exact (alert_flag_union _ _ H)].
Defined.

(** ** Run counters *)

Lemma row_leb_total (a b : SeriesRow) : row_leb a b = true \/ row_leb b a = true.
Proof. apply key_leb_total. Qed.

Lemma row_leb_trans (a b c : SeriesRow) :
  row_leb a b = true -> row_leb b c = true -> row_leb a c = true.
Proof. apply key_leb_trans. Qed.

Lemma sorted_input_sorted (input : list SeriesRow) :
  StronglySorted (fun a b => row_leb a b = true) (sorted_input input).
Proof. apply sort_values_sorted; [apply row_leb_total | apply row_leb_trans]. Qed.

Lemma regions_sorted (df : list SeriesRow) :
  StronglySorted (fun a b => row_leb a b = true) df ->
  StronglySorted (fun a b => String.leb a b = true) (map region df).
Proof.
  apply StronglySorted_map. intros a b. apply key_leb_region.
Qed.

(** A run column of a frame in order: the cell of a row from the cell of the
    row before. *)
Lemma run_column_step (f : SeriesRow -> bool) (df : list SeriesRow) (i : nat) (x : SeriesRow) :
  StronglySorted (fun a b => row_leb a b = true) df ->
  nth_error df i = Some x ->
  let col := groupby_transform compute_consecutive_runs 0 (map region df) (map f df) in
  nth i col 0 =
  if f x
  then match i with
       | 0 => 0
       | S j =>
           match nth_error df j with
           | Some p => if String.eqb (region p) (region x) then nth j col 0 else 0
           | None => 0
           end
       end + 1
  else 0.
Proof.
  intros Hs Hx col. subst col.
  assert (Hi : i < length (map region df)).
  { rewrite length_map. apply nth_error_Some. congruence. }
  assert (Hlen : length (map region df) = length (map f df)) by (rewrite !length_map; reflexivity).
  assert (Hk : nth i (map region df) EmptyString = region x) by (apply nth_map_error, Hx).
  rewrite nth_groupby_transform by exact Hi.
  rewrite nth_runs
    by (rewrite length_group by exact Hlen; apply rank_lt, Hi).
  rewrite (nth_rank_group false _ _ _ Hlen Hi), (nth_map_error f false df i x Hx).
  destruct (f x); [|reflexivity]. f_equal.
  destruct i as [|j]; [reflexivity|].
  destruct (nth_error df j) as [p|] eqn:Hp.
  2:{ apply nth_error_None in Hp. rewrite length_map in Hi. lia. }
  assert (Hkj : nth j (map region df) EmptyString = region p) by (apply nth_map_error, Hp).
  destruct (String.eqb (region p) (region x)) eqn:E.
  - apply String.eqb_eq in E.
    rewrite rank_same by (try exact Hi; congruence).
    rewrite nth_groupby_transform by lia.
    rewrite Hkj, Hk, E. reflexivity.
  - apply String.eqb_neq in E.
    rewrite rank_new; [reflexivity | apply regions_sorted, Hs | exact Hi | congruence].
Qed.

(** C5: in the final table, which is in (region, month) order, each run
    counter of a row is the counter of the previous month of the region plus
    1 when the condition of the counter holds on the row (0 stands for the
    counter before the first month of the region), and 0 when it does not. *)
Theorem run_counters_step (input : list SeriesRow) (i : nat) (r : FinalRow) :
  nth_error (step4 input) i = Some r ->
  moderate_run r =
    (if fltb (suppression_ratio (row r)) (Fin (60 # 100))
     then previous_run moderate_run (step4 input) i r + 1 else 0) /\
  severe_run r =
    (if fltb (suppression_ratio (row r)) (Fin (40 # 100))
     then previous_run severe_run (step4 input) i r + 1 else 0) /\
  (forall j p, j < i -> nth_error (step4 input) j = Some p ->
     row_leb (row p) (row r) = true).
Proof.
  intros Hr. pose proof (step4_rows _ _ _ Hr) as [x [Hx ->]].
  pose proof (sorted_input_sorted input) as Hs.
  cbn [moderate_run severe_run row finalize].
  assert (Hprev : forall (f : SeriesRow -> bool) (col : FinalRow -> nat),
    (forall j p, nth_error (step4 input) j = Some p ->
       col p = nth j (groupby_transform compute_consecutive_runs 0
                        (map region (sorted_input input)) (map f (sorted_input input))) 0) ->
    previous_run col (step4 input) i
      (finalize x (nth i (moderate_col input) 0) (nth i (severe_col input) 0)) =
    match i with
    | 0 => 0
    | S j =>
        match nth_error (sorted_input input) j with
        | Some p =>
            if String.eqb (region p) (region x)
            then nth j (groupby_transform compute_consecutive_runs 0
                          (map region (sorted_input input)) (map f (sorted_input input))) 0
            else 0
        | None => 0
        end
    end).
  { intros f col Hcol. unfold previous_run. destruct i as [|j]; [reflexivity|].
    destruct (nth_error (step4 input) j) as [p|] eqn:Hp.
    - pose proof (step4_rows _ _ _ Hp) as [y [Hy Hpy]].
      rewrite Hy, (Hcol _ _ Hp). subst p. reflexivity.
    - apply nth_error_None in Hp. rewrite length_step4 in Hp.
      destruct (nth_error (sorted_input input) j) eqn:Hy; [|reflexivity].
      assert (Hj : j < length (sorted_input input))
        by (apply nth_error_Some; congruence).
      unfold sorted_input in Hj. rewrite length_sort_values in Hj. lia. }
  split; [|split].
  - rewrite (Hprev flag_moderate moderate_run).
    + apply (run_column_step flag_moderate _ _ _ Hs Hx).
    + intros j p Hp. apply step4_rows in Hp. destruct Hp as [y [_ ->]]. reflexivity.
  - rewrite (Hprev flag_severe severe_run).
    + apply (run_column_step flag_severe _ _ _ Hs Hx).
    + intros j p Hp. apply step4_rows in Hp. destruct Hp as [y [_ ->]]. reflexivity.
  - intros j p Hj Hp. apply step4_rows in Hp. destruct Hp as [y [Hy ->]].
    cbn [row finalize].
    assert (Hi : i < length (sorted_input input)) by (apply nth_error_Some; congruence).
    pose proof (StronglySorted_nth _ x _ Hs j i Hj Hi) as H.
    rewrite (nth_error_nth _ _ x Hy), (nth_error_nth _ _ x Hx) in H. exact H.
Qed.

Lemma run_counters_step_witness :
  nth_error (step4 Sample.series) 8 = Some Sample.gangtok_last /\
  moderate_run Sample.gangtok_last =
    (if fltb (suppression_ratio (row Sample.gangtok_last)) (Fin (60 # 100))
     then previous_run moderate_run (step4 Sample.series) 8 Sample.gangtok_last + 1 else 0) /\
  severe_run Sample.gangtok_last =
    (if fltb (suppression_ratio (row Sample.gangtok_last)) (Fin (40 # 100))
     then previous_run severe_run (step4 Sample.series) 8 Sample.gangtok_last + 1 else 0) /\
  (forall j p, j < 8 -> nth_error (step4 Sample.series) j = Some p ->
     row_leb (row p) (row Sample.gangtok_last) = true).
Proof.
  assert (H : nth_error (step4 Sample.series) 8 = Some Sample.gangtok_last)
    by (vm_compute; reflexivity).
  split; [exact H | exact (run_counters_step _ _ _ H)].
Defined.

(** C10: on every record of the final table the severe run is at most the
    moderate run, because a ratio below 0.40 is below 0.60. *)
Theorem severe_run_le_moderate_run (input : list SeriesRow) (r : FinalRow) :
  In r (step4 input) -> severe_run r <= moderate_run r.
Proof.
  intros H. apply In_nth_error in H. destruct H as [i H].
  pose proof (step4_rows _ _ _ H) as [x [Hx ->]].
  cbn [moderate_run severe_run finalize].
  assert (Hi : i < length (map region (sorted_input input))).
  { rewrite length_map. apply nth_error_Some. congruence. }
  unfold moderate_col, severe_col.
  rewrite !nth_groupby_transform by exact Hi.
  rewrite !group_map, !runs_from_eq.
  apply runs_from_le; [|lia].
  intros y Hy. unfold flag_moderate, flag_severe in *.
  apply (fltb_trans _ severe_threshold); [exact Hy | reflexivity].
Qed.

Lemma severe_run_le_moderate_run_witness :
  In Sample.gangtok_last (step4 Sample.series) /\
  severe_run Sample.gangtok_last <= moderate_run Sample.gangtok_last.
Proof.
  assert (H : In Sample.gangtok_last (step4 Sample.series)).
  { vm_compute. do 8 right. left. reflexivity. }
  split; [exact H | exact (severe_run_le_moderate_run _ _ H)].
Defined.

End Step4Facts.

(* ================================================================== *)
(** * The two steps in sequence *)
(* ================================================================== *)

Module PipelineFacts.

Import Float Frame FrameFacts FloatFacts Step3 Step4 OrderFacts Step3Facts Step4Facts.

Lemma map_combine_snd {A B C} (h : B -> C) (g : A * B -> C) (l : list A) (l' : list B) :
  (forall x b, g (x, b) = h b) ->
  length l' <= length l ->
  map g (combine l l') = map h l'.
Proof.
  intros Hg. revert l'. induction l as [|x l IH]; intros [|b l'] Hlen; simpl in *;
    try reflexivity; try lia.
  rewrite Hg, IH by lia. reflexivity.
Qed.

Lemma length_moderate_col (input : list SeriesRow) :
  length (moderate_col input) = length (sorted_input input).
Proof. unfold moderate_col. rewrite length_groupby_transform, length_map. reflexivity. Qed.

Lemma length_severe_col (input : list SeriesRow) :
  length (severe_col input) = length (sorted_input input).
Proof. unfold severe_col. rewrite length_groupby_transform, length_map. reflexivity. Qed.

Lemma step4_unfold (input : list SeriesRow) :
  step4 input =
  map (fun rms => let '(r, (m, s)) := rms in finalize r m s)
      (combine (sorted_input input) (combine (moderate_col input) (severe_col input))).
Proof. reflexivity. Qed.

Lemma step4_row_col (input : list SeriesRow) : map row (step4 input) = sorted_input input.
Proof.
  rewrite step4_unfold, map_map. rewrite <- (map_id (sorted_input input)) at 2.
  apply map_combine_fst.
  - intros x [m s]. reflexivity.
  - rewrite length_combine, length_moderate_col, length_severe_col. lia.
Qed.

Lemma step4_moderate_col (input : list SeriesRow) :
  map moderate_run (step4 input) = moderate_col input.
Proof.
  rewrite step4_unfold, map_map.
  rewrite (map_combine_snd (fun ms : nat * nat => fst ms)).
  - rewrite <- (map_id (moderate_col input)) at 2. apply map_combine_fst.
    + intros m s. reflexivity.
    + rewrite length_moderate_col, length_severe_col. lia.
  - intros x [m s]. reflexivity.
  - rewrite length_combine, length_moderate_col, length_severe_col. lia.
Qed.

Lemma step4_severe_col (input : list SeriesRow) :
  map severe_run (step4 input) = severe_col input.
Proof.
  rewrite step4_unfold, map_map.
  rewrite (map_combine_snd (fun ms : nat * nat => snd ms)).
  - rewrite <- (map_id (severe_col input)) at 2. apply map_combine_snd.
    + intros m s. reflexivity.
    + rewrite length_moderate_col, length_severe_col. lia.
  - intros x [m s]. reflexivity.
  - rewrite length_combine, length_moderate_col, length_severe_col. lia.
Qed.

Lemma step4_regions (input : list SeriesRow) :
  map (fun r => region (row r)) (step4 input) = map region (sorted_input input).
Proof. rewrite <- (map_map row region), step4_row_col. reflexivity. Qed.

(** Step 4 sorts again a series that step 3 left in order. *)
Lemma sorted_input_series (df : list MergedRow) :
  sorted_input (series_of df) = series_of df.
Proof.
  unfold sorted_input. apply sort_values_sorted_id. apply series_of_sorted.
Qed.

(** Every row of the final table has its state, duration and alert from its
    two counters. *)
Lemma final_row_columns (input : list SeriesRow) (r : FinalRow) :
  In r (step4 input) ->
  silence_state r = label (moderate_run r) (severe_run r) /\
  silence_duration_months r = duration (silence_state r) (moderate_run r) (severe_run r) /\
  alert_flag r = alert (silence_state r) (moderate_run r) (severe_run r).
Proof.
  intros H. apply step4_finalize in H. destruct H as [x [m [s ->]]]. auto.
Qed.

Lemma series_row_ratio (df : list MergedRow) (r : SeriesRow) :
  In r (series_of df) ->
  suppression_ratio r = ratio (total_activity r) (baseline_total_ma6 r).
Proof.
  intros H. apply In_nth_error in H. destruct H as [i H].
  apply series_of_rows in H. destruct H as [x [_ ->]]. reflexivity.
Qed.

(** ** The first two months of a region *)




(** ** One region at a time *)

Lemma map_pair {A B C D} (f : A -> B) (g : A -> C) (h : B -> C -> D) (l : list A) :
  map (fun r => h (f r) (g r)) l
  = map (fun p => h (fst p) (snd p)) (combine (map f l) (map g l)).
Proof. induction l as [|x l IH]; simpl; [|rewrite IH]; reflexivity. Qed.

Lemma series_baseline_col (df : list MergedRow) :
  map baseline_total_ma6 (series_of df) = baseline_col df.
Proof.
  unfold series_of. fold (sorted_frame df). fold (baseline_col df).
  rewrite map_map. rewrite <- (map_id (baseline_col df)) at 2.
  apply map_combine_snd.
  - intros x b. reflexivity.
  - rewrite length_baseline_col. lia.
Qed.

Section RegionView.

Variable df : list MergedRow.
Variable g : string.

Let series := series_of df.
Let final := step4 series.
Let series_rows := group (map region series) series g.
Let final_rows := group (map (fun r => region (row r)) final) final g.

Lemma region_rows : map row final_rows = series_rows.
Proof.
  unfold final_rows, series_rows, final, series.
  rewrite <- group_map, step4_regions, step4_row_col, sorted_input_series. reflexivity.
Qed.

Lemma region_baseline :
  map baseline_total_ma6 series_rows = rolling_mean 6 3 (map total_activity series_rows).
Proof.
  unfold series_rows, series.
  rewrite <- !group_map, series_baseline_col. unfold baseline_col at 1.
  rewrite <- series_of_regions, <- series_of_totals.
  apply group_groupby_transform.
  - intros l. apply length_rolling_mean.
  - rewrite !length_map. reflexivity.
Qed.

Lemma region_ratio :
  map suppression_ratio series_rows
  = map (fun p => ratio (fst p) (snd p))
        (combine (map total_activity series_rows)
                 (rolling_mean 6 3 (map total_activity series_rows))).
Proof.
  rewrite <- region_baseline, <- map_pair.
  apply map_ext_in. intros r Hr. apply (series_row_ratio df).
  apply group_In in Hr. exact Hr.
Qed.

Lemma region_moderate_run :
  map moderate_run final_rows
  = compute_consecutive_runs (map flag_moderate series_rows).
Proof.
  unfold final_rows, series_rows, final, series.
  rewrite <- !group_map, step4_moderate_col, step4_regions. unfold moderate_col.
  rewrite sorted_input_series.
  apply group_groupby_transform.
  - intros l. apply length_runs.
  - rewrite !length_map. reflexivity.
Qed.

Lemma region_severe_run :
  map severe_run final_rows
  = compute_consecutive_runs (map flag_severe series_rows).
Proof.
  unfold final_rows, series_rows, final, series.
  rewrite <- !group_map, step4_severe_col, step4_regions. unfold severe_col.
  rewrite sorted_input_series.
  apply group_groupby_transform.
  - intros l. apply length_runs.
  - rewrite !length_map. reflexivity.
Qed.

End RegionView.

(** ** The scenario of seven months *)

(** C1, as the code has it: when the totals of a region over its seven
    months are 100, 100, 100, 100, 30, 25, 20, its severe flags are
    T, T, F, F, T, T, T (the two months without a baseline have ratio 0),
    its severe runs are 1, 2, 0, 0, 1, 2, 3, and its last month has state
    Severe, alert flag 1 and duration 3. *)
Theorem scenario_seven_months (df : list MergedRow) (g : string) :
  let final := step4 (series_of df) in
  let rows := group (map (fun r => region (row r)) final) final g in
  map (fun r => total_activity (row r)) rows
    = [Fin 100; Fin 100; Fin 100; Fin 100; Fin 30; Fin 25; Fin 20] ->
  map (fun r => fltb (suppression_ratio (row r)) (Fin (40 # 100))) rows
    = [true; true; false; false; true; true; true] /\
  map severe_run rows = [1; 2; 0; 0; 1; 2; 3] /\
  exists last,
    nth_error rows 6 = Some last /\
    silence_state last = Severe /\
    alert_flag last = 1 /\
    silence_duration_months last = 3.
Proof.
  intros final rows HT.
  pose proof (region_rows df g) as Hrows. cbv zeta in Hrows. fold final in Hrows. fold rows in Hrows.
  pose proof (region_ratio df g) as Hratio. cbv zeta in Hratio.
  pose proof (region_moderate_run df g) as Hm. cbv zeta in Hm. fold final in Hm. fold rows in Hm.
  pose proof (region_severe_run df g) as Hs. cbv zeta in Hs. fold final in Hs. fold rows in Hs.
  rewrite <- (map_map row total_activity), Hrows in HT.
  rewrite HT in Hratio.
  assert (Hfm : map flag_moderate (group (map region (series_of df)) (series_of df) g)
                = [true; true; false; false; true; true; true]).
  { unfold flag_moderate.
    rewrite <- (map_map suppression_ratio (fun q => fltb q moderate_threshold)), Hratio.
    vm_compute. reflexivity. }
  assert (Hfs : map flag_severe (group (map region (series_of df)) (series_of df) g)
                = [true; true; false; false; true; true; true]).
  { unfold flag_severe.
    rewrite <- (map_map suppression_ratio (fun q => fltb q severe_threshold)), Hratio.
    vm_compute. reflexivity. }
  rewrite Hfm in Hm. rewrite Hfs in Hs.
  split; [|split].
  - rewrite <- (map_map row (fun x => fltb (suppression_ratio x) (Fin (40 # 100)))), Hrows.
    exact Hfs.
  - rewrite Hs. reflexivity.
  - destruct (nth_error rows 6) as [last|] eqn:Hl.
    + exists last. split; [reflexivity|].
      assert (Hin : In last final).
      { apply nth_error_In in Hl. unfold rows in Hl. apply group_In in Hl. exact Hl. }
      pose proof (final_row_columns _ _ Hin) as [Hst [Hd Ha]].
      assert (Hml : moderate_run last = 3).
      { apply (map_nth_error moderate_run) in Hl. rewrite Hm in Hl.
        change (Some 3 = Some (moderate_run last)) in Hl. congruence. }
      assert (Hsl : severe_run last = 3).
      { apply (map_nth_error severe_run) in Hl. rewrite Hs in Hl.
        change (Some 3 = Some (severe_run last)) in Hl. congruence. }
      rewrite Hd, Ha, Hst, Hml, Hsl. repeat split; reflexivity.
    + apply nth_error_None in Hl.
      assert (Hlen : length (map severe_run rows) = 7) by (rewrite Hs; reflexivity).
      rewrite length_map in Hlen. lia.
Qed.

Lemma scenario_seven_months_witness :
  let final := step4 (series_of Sample.merged) in
  let rows := group (map (fun r => region (row r)) final) final "Sikkim | Gangtok | 737101" in
  map (fun r => total_activity (row r)) rows
    = [Fin 100; Fin 100; Fin 100; Fin 100; Fin 30; Fin 25; Fin 20] /\
  map (fun r => fltb (suppression_ratio (row r)) (Fin (40 # 100))) rows
    = [true; true; false; false; true; true; true] /\
  map severe_run rows = [1; 2; 0; 0; 1; 2; 3] /\
  exists last,
    nth_error rows 6 = Some last /\
    silence_state last = Severe /\
    alert_flag last = 1 /\
    silence_duration_months last = 3.
Proof.
  intros final rows.
  assert (H : map (fun r => total_activity (row r)) rows
              = [Fin 100; Fin 100; Fin 100; Fin 100; Fin 30; Fin 25; Fin 20])
    by (vm_compute; reflexivity).
  split; [exact H | exact (scenario_seven_months Sample.merged "Sikkim | Gangtok | 737101" H)].
Defined.

(** C1, as the specification words it, fails on the sample run: the region
    has the seven totals, and its severe flags and severe runs are not
    F, F, F, F, T, T, T and 0, 0, 0, 0, 1, 2, 3. *)
Lemma scenario_as_stated_fails :
  let final := pipeline Sample.enrol Sample.demo Sample.bio in
  let rows := group (map (fun r => region (row r)) final) final "Sikkim | Gangtok | 737101" in
  map (fun r => total_activity (row r)) rows
    = [Fin 100; Fin 100; Fin 100; Fin 100; Fin 30; Fin 25; Fin 20] /\
  ~ (map (fun r => fltb (suppression_ratio (row r)) (Fin (40 # 100))) rows
       = [false; false; false; false; true; true; true] /\
     map severe_run rows = [0; 0; 0; 0; 1; 2; 3] /\
     exists last,
       nth_error rows 6 = Some last /\
       silence_state last = Severe /\
       alert_flag last = 1 /\
       silence_duration_months last = 3).
Proof.
  vm_compute. split; [reflexivity|]. intros [H _]. discriminate H.
Qed.


End PipelineFacts.

(* ================================================================== *)
(** * The priority engine *)
(* ================================================================== *)

Module AppFacts.

Import Float Frame FrameFacts FloatFacts Step3 Step4 App SpecWords.

(** ** The maximum of a column *)

Lemma fleb_refl (x : fval) : isna x = false -> fleb x x = true.
Proof.
  destruct x; simpl; try reflexivity; try discriminate.
  intros _. apply Qle_bool_iff, Qle_refl.
Qed.

Lemma fleb_trans (x y z : fval) :
  fleb x y = true -> fleb y z = true -> fleb x z = true.
Proof.
  destruct x, y, z; simpl; try congruence.
  rewrite !Qle_bool_iff. apply Qle_trans.
Qed.

Lemma fltb_false_fleb (x y : fval) :
  isna x = false -> isna y = false -> fltb x y = false -> fleb y x = true.
Proof.
  destruct x, y; simpl; try congruence. unfold Qltb.
  intros _ _ H. apply negb_false_iff in H. exact H.
Qed.

Lemma fltb_fleb (x y : fval) : fltb x y = true -> fleb x y = true.
Proof.
  destruct x, y; simpl; try congruence.
  rewrite Qltb_lt, Qle_bool_iff. apply Qlt_le_weak.
Qed.

Lemma fmax2_cases (acc x : fval) :
  (fmax2 acc x = acc /\ (isna x = true \/ (isna acc = false /\ fltb acc x = false))) \/
  (fmax2 acc x = x /\ isna x = false /\ (isna acc = true \/ fltb acc x = true)).
Proof.
  destruct acc, x; simpl;
    try match goal with
        | |- context [if ?c then _ else _] => destruct c eqn:E
        end;
    first
      [ left; split; [reflexivity|];
        first [left; reflexivity | right; split; [reflexivity | assumption || reflexivity]]
      | right; split; [reflexivity|]; split; [reflexivity|];
        first [left; reflexivity | right; assumption || reflexivity] ].
Qed.

Lemma fmax2_ge_acc (acc x : fval) : isna acc = false -> fleb acc (fmax2 acc x) = true.
Proof.
  intros Ha. destruct (fmax2_cases acc x) as [[-> _]|[-> [_ [H|H]]]].
  - apply fleb_refl, Ha.
  - congruence.
  - apply fltb_fleb, H.
Qed.

Lemma fmax2_ge_new (acc x : fval) : isna x = false -> fleb x (fmax2 acc x) = true.
Proof.
  intros Hx. destruct (fmax2_cases acc x) as [[-> [H|[Ha H]]]|[-> _]].
  - congruence.
  - apply fltb_false_fleb; assumption.
  - apply fleb_refl, Hx.
Qed.

Lemma fmax2_not_na (acc x : fval) :
  isna (fmax2 acc x) = isna acc && isna x.
Proof.
  destruct (fmax2_cases acc x) as [[-> [H|[Ha H]]]|[-> [Hx _]]].
  - rewrite H. rewrite andb_true_r. reflexivity.
  - rewrite Ha. reflexivity.
  - rewrite Hx. rewrite andb_false_r. reflexivity.
Qed.

Lemma fold_fmax2_ge (xs : list fval) (acc : fval) :
  (isna acc = false -> fleb acc (fold_left fmax2 xs acc) = true) /\
  (forall v, In v xs -> isna v = false -> fleb v (fold_left fmax2 xs acc) = true).
Proof.
  revert acc. induction xs as [|x xs IH]; intros acc; simpl.
  - split; [apply fleb_refl | contradiction].
  - destruct (IH (fmax2 acc x)) as [IH1 IH2]. split.
    + intros Ha. apply fleb_trans with (fmax2 acc x).
      * apply fmax2_ge_acc, Ha.
      * apply IH1. rewrite fmax2_not_na, Ha. reflexivity.
    + intros v [<-|Hv] Hna.
      * apply fleb_trans with (fmax2 acc x).
        -- apply fmax2_ge_new, Hna.
        -- apply IH1. rewrite fmax2_not_na, Hna. apply andb_false_r.
      * apply IH2; assumption.
Qed.

(** [col_max] is above every cell that is not NaN. *)
Lemma col_max_ge (xs : list fval) (v : fval) :
  In v xs -> isna v = false -> fleb v (col_max xs) = true.
Proof. intros Hv Hna. apply (proj2 (fold_fmax2_ge xs NaN)); assumption. Qed.

Lemma fold_fmax2_in (xs : list fval) (acc : fval) :
  fold_left fmax2 xs acc = acc \/ In (fold_left fmax2 xs acc) xs.
Proof.
  revert acc. induction xs as [|x xs IH]; intros acc; simpl; [left; reflexivity|].
  destruct (IH (fmax2 acc x)) as [H|H]; [|right; right; exact H].
  rewrite H. destruct (fmax2_cases acc x) as [[-> _]|[-> _]]; auto.
Qed.

(** [col_max] is one of the cells, or NaN when every cell is NaN. *)
Lemma col_max_in (xs : list fval) :
  col_max xs = NaN \/ In (col_max xs) xs.
Proof. apply fold_fmax2_in. Qed.

(** ** Values up to equality of numbers *)

Lemma same_value_refl (x : fval) : same_value x x.
Proof. destruct x; simpl; auto. reflexivity. Qed.

Lemma same_value_isna (x y : fval) : same_value x y -> isna x = isna y.
Proof. destruct x, y; simpl; auto; contradiction. Qed.

Lemma Qle_bool_same (a a' b b' : Q) :
  (a == a')%Q -> (b == b')%Q -> Qle_bool a b = Qle_bool a' b'.
Proof.
  intros Ha Hb. apply eq_true_iff_eq. rewrite !Qle_bool_iff, Ha, Hb. reflexivity.
Qed.

Lemma Qltb_same (a a' b b' : Q) :
  (a == a')%Q -> (b == b')%Q -> Qltb a b = Qltb a' b'.
Proof.
  intros Ha Hb. unfold Qltb. rewrite (Qle_bool_same b b' a a' Hb Ha). reflexivity.
Qed.

Lemma Qeq_bool_same (a a' b b' : Q) :
  (a == a')%Q -> (b == b')%Q -> Qeq_bool a b = Qeq_bool a' b'.
Proof.
  intros Ha Hb. apply eq_true_iff_eq. rewrite !Qeq_bool_iff, Ha, Hb. reflexivity.
Qed.

Lemma inf_of_sign_same (pos : bool) (a b : Q) :
  (a == b)%Q -> inf_of_sign pos a = inf_of_sign pos b.
Proof. intros H. unfold inf_of_sign, Qsgn. rewrite H. reflexivity. Qed.

Lemma fleb_same (x x' y y' : fval) :
  same_value x x' -> same_value y y' -> fleb x y = fleb x' y'.
Proof.
  destruct x, x', y, y'; simpl; auto; try contradiction.
  apply Qle_bool_same.
Qed.

Lemma fleb_antisym (x y : fval) :
  fleb x y = true -> fleb y x = true -> same_value x y.
Proof.
  destruct x, y; simpl; auto; try discriminate.
  rewrite !Qle_bool_iff. apply Qle_antisym.
Qed.

Lemma fopp_same (x x' : fval) : same_value x x' -> same_value (fopp x) (fopp x').
Proof. destruct x, x'; simpl; auto. intros H. rewrite H. reflexivity. Qed.

Lemma fadd_same (x x' y y' : fval) :
  same_value x x' -> same_value y y' -> same_value (fadd x y) (fadd x' y').
Proof.
  destruct x, x', y, y'; simpl; auto; try contradiction.
  intros H1 H2. rewrite H1, H2. reflexivity.
Qed.

Lemma fmul_same (x x' y y' : fval) :
  same_value x x' -> same_value y y' -> same_value (fmul x y) (fmul x' y').
Proof.
  destruct x, x', y, y'; simpl; auto; try contradiction; intros H1 H2;
    try (rewrite (inf_of_sign_same _ _ _ H1); apply same_value_refl);
    try (rewrite (inf_of_sign_same _ _ _ H2); apply same_value_refl).
  rewrite H1, H2. reflexivity.
Qed.

Lemma fdiv_same (x x' y y' : fval) :
  same_value x x' -> same_value y y' -> same_value (fdiv x y) (fdiv x' y').
Proof.
  destruct x, x', y, y'; simpl; auto; try contradiction; intros H1 H2;
    try (rewrite (Qltb_same _ _ 0 0 H2 (Qeq_refl 0)); apply same_value_refl);
    try reflexivity.
  rewrite (Qeq_bool_same _ _ 0 0 H2 (Qeq_refl 0)).
  destruct (Qeq_bool q2 0) eqn:E.
  - rewrite (inf_of_sign_same _ _ _ H1). apply same_value_refl.
  - simpl. apply Qeq_bool_neq in E. rewrite H1, H2. reflexivity.
Qed.

(** ** The max of the set *)

(** [Series.max()] gives the max of the column in the set. *)
Lemma col_max_is_max (xs : list fval) : max_in_set xs (col_max xs).
Proof.
  split.
  - intros v Hv Hna. apply col_max_ge; assumption.
  - destruct (col_max_in xs) as [E|Hin]; [left; exact E|].
    right. exists (col_max xs). split; [exact Hin | apply same_value_refl].
Qed.

(** The max of a column in the set is one value. *)
Lemma max_in_set_unique (xs : list fval) (m m' : fval) :
  max_in_set xs m -> max_in_set xs m' -> same_value m m'.
Proof.
  assert (Hone : forall a b, max_in_set xs a -> max_in_set xs b ->
                             isna a = false -> fleb a b = true).
  { intros a b [_ [Ea|[v [Hv Sv]]]] [Hb _] Hna; [rewrite Ea in Hna; discriminate|].
    rewrite <- (fleb_same v a b b Sv (same_value_refl b)).
    apply Hb; [exact Hv|]. rewrite (same_value_isna _ _ Sv). exact Hna. }
  intros Hm Hm'.
  destruct (isna m) eqn:Em, (isna m') eqn:Em'.
  - destruct m, m'; try discriminate. exact I.
  - pose proof (Hone m' m Hm' Hm Em') as H. destruct m; try discriminate.
    destruct m'; discriminate.
  - pose proof (Hone m m' Hm Hm' Em) as H. destruct m'; try discriminate.
    destruct m; discriminate.
  - apply fleb_antisym; apply Hone; assumption.
Qed.

Lemma max_in_set_perm (xs ys : list fval) (m : fval) :
  Permutation xs ys -> max_in_set xs m -> max_in_set ys m.
Proof.
  intros P [H1 H2]. split.
  - intros v Hv. apply H1. apply (Permutation_in _ (Permutation_sym P)), Hv.
  - destruct H2 as [E|[v [Hv Sv]]]; [left; exact E|].
    right. exists v. split; [apply (Permutation_in _ P), Hv | exact Sv].
Qed.

(** ** Priority score *)

Lemma engine_row (d : list FinalRow) (x : Scored) :
  In x (priority_engine d) ->
  In (zone x) d /\
  Priority_Score x =
    weighted (fsub (Fin 1) (SZI (zone x)))
             (fdiv (of_nat (silence_duration_months (zone x))) (max_duration d))
             (fdiv (suppression_depth_pct (zone x)) (Fin 100))
             (fdiv (baseline_total_ma6 (row (zone x))) (max_baseline d)).
Proof.
  unfold priority_engine. intros Hx.
  apply (proj1 (sort_values_In score_before _ _)) in Hx.
  apply in_map_iff in Hx. destruct Hx as [r [<- Hr]]. split; [exact Hr | reflexivity].
Qed.

Lemma weighted_same (risk dur dur' depth impact impact' : fval) :
  same_value dur dur' -> same_value impact impact' ->
  same_value (weighted risk dur depth impact) (weighted risk dur' depth impact').
Proof.
  intros Hd Hi. unfold weighted.
  repeat first [ apply fadd_same | apply fmul_same | apply same_value_refl | assumption ].
Qed.

(** C9: every record of the selected set gets one scored record; with the
    max duration and the max baseline of the set, whatever cell holds them,
    the score is 0.35 (1 - SZI) + 0.25 (duration / max duration)
    + 0.25 (depth / 100) + 0.15 (baseline / max baseline), in float
    arithmetic; the scores depend on the set alone: in whatever order the
    records of the set come, a record gets the same score. *)
Theorem priority_score_formula (d : list FinalRow) (max_dur max_base : fval) :
  max_in_set (map (fun r => of_nat (silence_duration_months r)) d) max_dur ->
  max_in_set (map (fun r => baseline_total_ma6 (row r)) d) max_base ->
  (forall x, In x (priority_engine d) ->
     In (zone x) d /\
     same_value (Priority_Score x)
       (fadd (fadd (fadd
         (fmul (Fin (35 # 100)) (fsub (Fin 1) (SZI (zone x))))
         (fmul (Fin (25 # 100))
               (fdiv (of_nat (silence_duration_months (zone x))) max_dur)))
         (fmul (Fin (25 # 100)) (fdiv (suppression_depth_pct (zone x)) (Fin 100))))
         (fmul (Fin (15 # 100))
               (fdiv (baseline_total_ma6 (row (zone x))) max_base)))) /\
  (forall r, In r d -> exists x, In x (priority_engine d) /\ zone x = r) /\
  Permutation (map zone (priority_engine d)) d /\
  (forall d' x x', Permutation d d' ->
     In x (priority_engine d) -> In x' (priority_engine d') -> zone x = zone x' ->
     same_value (Priority_Score x) (Priority_Score x')).
Proof.
  intros Hdur Hbase.
  assert (Hperm : Permutation (map zone (priority_engine d)) d).
  { unfold priority_engine. eapply perm_trans.
    - apply Permutation_map. apply (sort_values_perm score_before).
    - rewrite map_map. cbn [zone]. rewrite map_id. apply Permutation_refl. }
  split; [|split; [|split]].
  - intros x Hx. destruct (engine_row d x Hx) as [Hz ->]. split; [exact Hz|].
    apply weighted_same; apply fdiv_same; try apply same_value_refl.
    + apply (max_in_set_unique _ _ _ (col_max_is_max _) Hdur).
    + apply (max_in_set_unique _ _ _ (col_max_is_max _) Hbase).
  - intros r Hr. apply (Permutation_in _ (Permutation_sym Hperm)) in Hr.
    apply in_map_iff in Hr. destruct Hr as [x [Hx Hin]]. exists x. auto.
  - exact Hperm.
  - intros d' x x' P Hx Hx' Hz.
    destruct (engine_row d x Hx) as [_ ->]. destruct (engine_row d' x' Hx') as [_ ->].
    rewrite <- Hz.
    apply weighted_same; apply fdiv_same; try apply same_value_refl.
    + apply (max_in_set_unique (map (fun r => of_nat (silence_duration_months r)) d));
        [apply col_max_is_max|].
      apply (max_in_set_perm _ _ _ (Permutation_sym (Permutation_map _ P))).
      apply col_max_is_max.
    + apply (max_in_set_unique (map (fun r => baseline_total_ma6 (row r)) d));
        [apply col_max_is_max|].
      apply (max_in_set_perm _ _ _ (Permutation_sym (Permutation_map _ P))).
      apply col_max_is_max.
Qed.

Lemma priority_score_formula_witness :
  max_in_set (map (fun r => of_nat (silence_duration_months r)) SampleDashboard.gangtok_known)
             (Fin 3) /\
  max_in_set (map (fun r => baseline_total_ma6 (row r)) SampleDashboard.gangtok_known)
             (Fin 100) /\
  (forall x, In x (priority_engine SampleDashboard.gangtok_known) ->
     In (zone x) SampleDashboard.gangtok_known /\
     same_value (Priority_Score x)
       (fadd (fadd (fadd
         (fmul (Fin (35 # 100)) (fsub (Fin 1) (SZI (zone x))))
         (fmul (Fin (25 # 100))
               (fdiv (of_nat (silence_duration_months (zone x))) (Fin 3))))
         (fmul (Fin (25 # 100)) (fdiv (suppression_depth_pct (zone x)) (Fin 100))))
         (fmul (Fin (15 # 100))
               (fdiv (baseline_total_ma6 (row (zone x))) (Fin 100))))).
Proof.
  assert (Hdur : max_in_set (map (fun r => of_nat (silence_duration_months r))
                               SampleDashboard.gangtok_known) (Fin 3)).
  { split.
    - intros v Hv _. vm_compute in Hv.
      repeat (destruct Hv as [<-|Hv]; [reflexivity|]). destruct Hv.
    - right. exists (Fin 3). split; [vm_compute; tauto | reflexivity]. }
  assert (Hbase : max_in_set (map (fun r => baseline_total_ma6 (row r))
                                SampleDashboard.gangtok_known) (Fin 100)).
  { split.
    - intros v Hv _. vm_compute in Hv.
      repeat (destruct Hv as [<-|Hv]; [reflexivity|]). destruct Hv.
    - right. exists (Fin (300 # 3)). split; [vm_compute; tauto | reflexivity]. }
  split; [exact Hdur|]. split; [exact Hbase|].
  exact (proj1 (priority_score_formula SampleDashboard.gangtok_known (Fin 3) (Fin 100)
                  Hdur Hbase)).
Defined.

End AppFacts.

From Stdlib Require Import Lqa.

(* ================================================================== *)
(** * Step 4: what the final table guarantees *)
(* ================================================================== *)

Module Step4More.

Import Float Frame FrameFacts FloatFacts Step3 Step4 OrderFacts Step3Facts Step4Facts
       PipelineFacts.

(** ** The meaning of a run counter *)

(** X1: the counter that [compute_consecutive_runs] gives at a position is
    the number of flags that hold in a row up to that position: that many
    flags hold, and the one before them, if any, does not. *)
Theorem runs_count_streak (fs : list bool) (i : nat) :
  i < length fs ->
  let n := nth i (compute_consecutive_runs fs) 0 in
  n <= i + 1 /\
  (forall j, i + 1 - n <= j -> j <= i -> nth j fs false = true) /\
  (n <= i -> nth (i - n) fs false = false).
Proof.
  cbv zeta. induction i as [|k IH]; intros Hi; rewrite nth_runs by exact Hi.
  - destruct (nth 0 fs false) eqn:E; simpl.
    + repeat split; try lia. intros j _ Hj. replace j with 0 by lia. exact E.
    + repeat split; try lia. intros _. exact E.
  - destruct (nth (S k) fs false) eqn:E.
    + destruct (IH ltac:(lia)) as [H1 [H2 H3]].
      set (m := nth k (compute_consecutive_runs fs) 0) in *.
      split; [lia|]. split.
      * intros j Hlo Hhi. destruct (Nat.eq_dec j (S k)) as [->|Hne]; [exact E|].
        apply H2; lia.
      * intros Hle. replace (S k - (m + 1)) with (k - m) by lia. apply H3. lia.
    + repeat split; try lia. intros _. rewrite Nat.sub_0_r. exact E.
Qed.

Lemma runs_count_streak_witness :
  4 < length [false; true; true; false; true] /\
  (let n := nth 4 (compute_consecutive_runs [false; true; true; false; true]) 0 in
   n <= 4 + 1 /\
   (forall j, 4 + 1 - n <= j -> j <= 4 ->
      nth j [false; true; true; false; true] false = true) /\
   (n <= 4 -> nth (4 - n) [false; true; true; false; true] false = false)).
Proof.
  assert (H : 4 < length [false; true; true; false; true]) by (simpl; lia).
  split; [exact H | exact (runs_count_streak _ 4 H)].
Defined.

(** ** No row is lost *)

(** X2: the final table holds the rows of the input of step 4, each once,
    in (region, month) order. *)
Theorem step4_keeps_rows (input : list SeriesRow) :
  Permutation (map row (step4 input)) input /\
  length (step4 input) = length input /\
  StronglySorted (fun a b => row_leb (row a) (row b) = true) (step4 input).
Proof.
  split; [|split].
  - rewrite step4_row_col. apply sort_values_perm.
  - apply length_step4.
  - apply (StronglySorted_of_map row (fun a b => row_leb a b = true)).
    rewrite step4_row_col. apply sorted_input_sorted.
Qed.

(** ** Duration, alert *)

(** X3: the reported duration is the severe run on a Severe row (at least
    3), the moderate run on a Moderate row (at least 2), and 0 on a Normal
    row; it is 0 on no other row. *)
Theorem duration_by_state (input : list SeriesRow) (r : FinalRow) :
  In r (step4 input) ->
  (silence_state r = Severe ->
     silence_duration_months r = severe_run r /\ 3 <= silence_duration_months r) /\
  (silence_state r = Moderate ->
     silence_duration_months r = moderate_run r /\ 2 <= silence_duration_months r) /\
  (silence_state r = Normal <-> silence_duration_months r = 0).
Proof.
  intros H. apply step4_finalize in H. destruct H as [x [m [s ->]]].
  cbn [silence_state silence_duration_months moderate_run severe_run finalize].
  unfold duration, label.
  destruct (Nat.leb_spec 3 s), (Nat.leb_spec 2 m); simpl;
    repeat split; intros; try discriminate; try lia; try reflexivity.
Qed.

Lemma duration_by_state_witness :
  In Sample.gangtok_last (step4 Sample.series) /\
  (silence_state Sample.gangtok_last = Severe ->
     silence_duration_months Sample.gangtok_last = severe_run Sample.gangtok_last /\
     3 <= silence_duration_months Sample.gangtok_last) /\
  (silence_state Sample.gangtok_last = Moderate ->
     silence_duration_months Sample.gangtok_last = moderate_run Sample.gangtok_last /\
     2 <= silence_duration_months Sample.gangtok_last) /\
  (silence_state Sample.gangtok_last = Normal <->
     silence_duration_months Sample.gangtok_last = 0).
Proof.
  assert (H : In Sample.gangtok_last (step4 Sample.series)).
  { vm_compute. do 8 right. left. reflexivity. }
  split; [exact H | exact (duration_by_state _ _ H)].
Defined.

(** X4: no alert is raised on a Normal row, and inside a streak that is
    Moderate an alert is raised on the second month only: a Moderate row
    has its alert exactly when its moderate run is 2. *)
Theorem alert_on_transition (input : list SeriesRow) (r : FinalRow) :
  In r (step4 input) ->
  (silence_state r = Normal -> alert_flag r = 0) /\
  (silence_state r = Moderate -> (alert_flag r = 1 <-> moderate_run r = 2)) /\
  (silence_state r = Moderate -> 2 < moderate_run r -> alert_flag r = 0) /\
  (silence_state r = Severe -> alert_flag r = 1).
Proof.
  intros H. apply step4_finalize in H. destruct H as [x [m [s ->]]].
  cbn [silence_state alert_flag moderate_run severe_run finalize].
  unfold alert, label.
  destruct (Nat.leb_spec 3 s), (Nat.leb_spec 2 m); simpl;
    destruct (Nat.eqb_spec s 3), (Nat.eqb_spec m 2); simpl;
    repeat split; intros; try discriminate; try lia; try reflexivity.
Qed.

Lemma alert_on_transition_witness :
  In Sample.barpeta_second (step4 Sample.series) /\
  (silence_state Sample.barpeta_second = Normal -> alert_flag Sample.barpeta_second = 0) /\
  (silence_state Sample.barpeta_second = Moderate ->
     (alert_flag Sample.barpeta_second = 1 <-> moderate_run Sample.barpeta_second = 2)) /\
  (silence_state Sample.barpeta_second = Moderate ->
     2 < moderate_run Sample.barpeta_second -> alert_flag Sample.barpeta_second = 0) /\
  (silence_state Sample.barpeta_second = Severe -> alert_flag Sample.barpeta_second = 1).
Proof.
  assert (H : In Sample.barpeta_second (step4 Sample.series)).
  { vm_compute. right. left. reflexivity. }
  split; [exact H | exact (alert_on_transition _ _ H)].
Defined.

(** ** Ranges *)

Lemma Qltb_ge (x y : Q) : Qltb x y = false <-> (y <= x)%Q.
Proof.
  unfold Qltb. rewrite negb_false_iff. apply Qle_bool_iff.
Qed.

Lemma ratio_is_finite (total baseline : fval) : exists a, ratio total baseline = Fin a.
Proof.
  unfold ratio. destruct (fdiv total baseline) as [| | |a]; eexists; reflexivity.
Qed.

(** The rows of the final table of the two steps come from rows of the
    series, with a finite ratio. *)
Lemma final_row_of_series (df : list MergedRow) (r : FinalRow) :
  In r (step4 (series_of df)) ->
  exists a m s, In (row r) (series_of df) /\
                suppression_ratio (row r) = Fin a /\
                r = finalize (row r) m s.
Proof.
  intros H. apply In_nth_error in H. destruct H as [i H].
  apply step4_rows in H. destruct H as [x [Hx ->]].
  rewrite sorted_input_series in Hx. apply nth_error_In in Hx.
  cbn [row finalize].
  destruct (ratio_is_finite (total_activity x) (baseline_total_ma6 x)) as [a Ha].
  exists a, (nth i (moderate_col (series_of df)) 0), (nth i (severe_col (series_of df)) 0).
  split; [exact Hx|]. split; [|reflexivity].
  rewrite (series_row_ratio df x Hx). exact Ha.
Qed.

(** X5: on every row of the final table of the two steps the index SZI is
    a number between 0 and 1 and the depth is a number that is at least 0;
    when the ratio is not negative, the depth is 100 (1 - SZI). *)
Theorem szi_and_depth_range (df : list MergedRow) (r : FinalRow) :
  In r (step4 (series_of df)) ->
  exists a q d : Q,
    suppression_ratio (row r) = Fin a /\
    SZI r = Fin q /\
    suppression_depth_pct r = Fin d /\
    (0 <= q)%Q /\ (q <= 1)%Q /\ (0 <= d)%Q /\
    ((0 <= a)%Q -> (d == 100 * (1 - q))%Q) /\
    ((a <= 1)%Q -> (0 <= a)%Q -> (q == a)%Q).
Proof.
  intros H. destruct (final_row_of_series df r H) as [a [m [s [_ [Ha Er]]]]].
  exists a. rewrite Er. cbn [SZI suppression_depth_pct row finalize]. rewrite Ha.
  unfold depth_pct, clip, clip_lower, fgtb, fsub, fmul, fadd, fopp, fltb.
  destruct (Qltb a 0) eqn:E0; [apply Qltb_lt in E0 | apply Qltb_ge in E0];
    (destruct (Qltb 1 a) eqn:E1; [apply Qltb_lt in E1 | apply Qltb_ge in E1]);
    (destruct (Qltb ((1 + - a) * 100) 0) eqn:E2;
       [apply Qltb_lt in E2 | apply Qltb_ge in E2]);
    eexists; eexists; (split; [reflexivity|]); (split; [reflexivity|]);
    (split; [reflexivity|]); repeat split; intros; try lra.
Qed.

Lemma szi_and_depth_range_witness :
  In Sample.gangtok_last (step4 (series_of Sample.merged)) /\
  exists a q d : Q,
    suppression_ratio (row Sample.gangtok_last) = Fin a /\
    SZI Sample.gangtok_last = Fin q /\
    suppression_depth_pct Sample.gangtok_last = Fin d /\
    (0 <= q)%Q /\ (q <= 1)%Q /\ (0 <= d)%Q /\
    ((0 <= a)%Q -> (d == 100 * (1 - q))%Q) /\
    ((a <= 1)%Q -> (0 <= a)%Q -> (q == a)%Q).
Proof.
  assert (H : In Sample.gangtok_last (step4 (series_of Sample.merged))).
  { vm_compute. do 8 right. left. reflexivity. }
  split; [exact H | exact (szi_and_depth_range _ _ H)].
Defined.

(** ** Recommendation *)



(** ** A state is a streak of months *)

Section Streaks.

Variable f : SeriesRow -> bool.
Variable df : list SeriesRow.
Hypothesis df_sorted : StronglySorted (fun a b => row_leb a b = true) df.

Let col := groupby_transform compute_consecutive_runs 0 (map region df) (map f df).

Lemma run_positive (i : nat) (x : SeriesRow) :
  nth_error df i = Some x -> (1 <= nth i col 0 <-> f x = true).
Proof.
  intros Hx. unfold col. rewrite (run_column_step f df i x df_sorted Hx).
  destruct (f x); split; intros; try lia; try discriminate; reflexivity.
Qed.

Lemma run_above (i k : nat) (x : SeriesRow) :
  nth_error df i = Some x ->
  (S (S k) <= nth i col 0 <->
   f x = true /\
   exists j p, i = S j /\ nth_error df j = Some p /\ region p = region x /\
               S k <= nth j col 0).
Proof.
  intros Hx. unfold col. rewrite (run_column_step f df i x df_sorted Hx).
  destruct (f x).
  - destruct i as [|j].
    + split; [lia|]. intros [_ [j [p [Hj _]]]]. discriminate.
    + destruct (nth_error df j) as [p|] eqn:Hp.
      * destruct (String.eqb (region p) (region x)) eqn:E.
        -- apply String.eqb_eq in E. split.
           ++ intros H. split; [reflexivity|]. exists j, p. repeat split; auto. lia.
           ++ intros [_ [j' [p' [Hj [Hp' [_ Hk]]]]]]. injection Hj as <-. lia.
        -- apply String.eqb_neq in E. split; [lia|].
           intros [_ [j' [p' [Hj [Hp' [Hreg _]]]]]]. injection Hj as <-.
           rewrite Hp in Hp'. injection Hp' as <-. contradiction.
      * split; [lia|].
        intros [_ [j' [p' [Hj [Hp' _]]]]]. injection Hj as <-. congruence.
  - split; [lia|]. intros [H _]. discriminate.
Qed.

End Streaks.

Lemma final_row_cols (input : list SeriesRow) (i : nat) (r : FinalRow) :
  nth_error (step4 input) i = Some r ->
  nth_error (sorted_input input) i = Some (row r) /\
  moderate_run r = nth i (moderate_col input) 0 /\
  severe_run r = nth i (severe_col input) 0 /\
  silence_state r = label (moderate_run r) (severe_run r).
Proof.
  intros H. apply step4_rows in H. destruct H as [x [Hx ->]]. auto.
Qed.

Lemma final_row_at (input : list SeriesRow) (j : nat) (p : SeriesRow) :
  nth_error (sorted_input input) j = Some p ->
  exists r, nth_error (step4 input) j = Some r /\ row r = p.
Proof.
  intros Hp.
  assert (Hj : j < length (step4 input)).
  { rewrite length_step4.
    rewrite <- (length_sort_values row_leb input). apply nth_error_Some.
    unfold sorted_input in Hp. congruence. }
  destruct (nth_error (step4 input) j) as [r|] eqn:Hr;
    [|apply nth_error_None in Hr; lia].
  exists r. split; [reflexivity|].
  apply final_row_cols in Hr. destruct Hr as [Hr _]. congruence.
Qed.

(** X7: a row of the final table is Severe exactly when it and the two rows
    before it in the table are rows of one region, three months in a row,
    with ratio below 0.40. *)
Theorem severe_is_three_months (input : list SeriesRow) (i : nat) (r : FinalRow) :
  nth_error (step4 input) i = Some r ->
  (silence_state r = Severe <->
   exists j p q,
     i = S (S j) /\
     nth_error (step4 input) (S j) = Some p /\
     nth_error (step4 input) j = Some q /\
     region (row p) = region (row r) /\
     region (row q) = region (row r) /\
     fltb (suppression_ratio (row r)) (Fin (40 # 100)) = true /\
     fltb (suppression_ratio (row p)) (Fin (40 # 100)) = true /\
     fltb (suppression_ratio (row q)) (Fin (40 # 100)) = true).
Proof.
  intros Hr. pose proof (final_row_cols _ _ _ Hr) as [Hx [_ [Hs Hst]]].
  pose proof (sorted_input_sorted input) as Hsorted.
  assert (Hsev : silence_state r = Severe <-> 3 <= severe_run r).
  { rewrite Hst. unfold label.
    destruct (Nat.leb_spec 3 (severe_run r)), (Nat.leb_spec 2 (moderate_run r));
      split; intros; try discriminate; try lia; reflexivity. }
  rewrite Hsev, Hs. unfold severe_col.
  rewrite (run_above flag_severe _ Hsorted i 1 (row r) Hx).
  split.
  - intros [Hf [j1 [p [-> [Hp [Hreg Hrun]]]]]].
    apply (run_above flag_severe _ Hsorted j1 0 p Hp) in Hrun.
    destruct Hrun as [Hfp [j [q [-> [Hq [Hregq Hrunq]]]]]].
    apply (run_positive flag_severe _ Hsorted j q Hq) in Hrunq.
    destruct (final_row_at input (S j) p Hp) as [rp [Hrp Ep]].
    destruct (final_row_at input j q Hq) as [rq [Hrq Eq]].
    exists j, rp, rq. rewrite Ep, Eq. repeat split; auto. congruence.
  - intros [j [rp [rq [-> [Hrp [Hrq [Hreg [Hregq [Hf [Hfp Hfq]]]]]]]]]].
    apply final_row_cols in Hrp. destruct Hrp as [Hp _].
    apply final_row_cols in Hrq. destruct Hrq as [Hq _].
    split; [exact Hf|]. exists (S j), (row rp). repeat split; auto.
    apply (run_above flag_severe _ Hsorted (S j) 0 (row rp) Hp).
    split; [exact Hfp|]. exists j, (row rq). repeat split; auto; [congruence|].
    apply (run_positive flag_severe _ Hsorted j (row rq) Hq). exact Hfq.
Qed.

Lemma severe_is_three_months_witness :
  nth_error (step4 Sample.series) 8 = Some Sample.gangtok_last /\
  (silence_state Sample.gangtok_last = Severe <->
   exists j p q,
     8 = S (S j) /\
     nth_error (step4 Sample.series) (S j) = Some p /\
     nth_error (step4 Sample.series) j = Some q /\
     region (row p) = region (row Sample.gangtok_last) /\
     region (row q) = region (row Sample.gangtok_last) /\
     fltb (suppression_ratio (row Sample.gangtok_last)) (Fin (40 # 100)) = true /\
     fltb (suppression_ratio (row p)) (Fin (40 # 100)) = true /\
     fltb (suppression_ratio (row q)) (Fin (40 # 100)) = true).
Proof.
  assert (H : nth_error (step4 Sample.series) 8 = Some Sample.gangtok_last)
    by (vm_compute; reflexivity).
  split; [exact H | exact (severe_is_three_months _ _ _ H)].
Defined.

(** X8: a row of the final table is Moderate exactly when it is not Severe
    and it and the row before it in the table are rows of one region, two
    months in a row, with ratio below 0.60. *)
Theorem moderate_is_two_months (input : list SeriesRow) (i : nat) (r : FinalRow) :
  nth_error (step4 input) i = Some r ->
  (silence_state r = Moderate <->
   silence_state r <> Severe /\
   exists j p,
     i = S j /\
     nth_error (step4 input) j = Some p /\
     region (row p) = region (row r) /\
     fltb (suppression_ratio (row r)) (Fin (60 # 100)) = true /\
     fltb (suppression_ratio (row p)) (Fin (60 # 100)) = true).
Proof.
  intros Hr. pose proof (final_row_cols _ _ _ Hr) as [Hx [Hm [_ Hst]]].
  pose proof (sorted_input_sorted input) as Hsorted.
  assert (Hmod : silence_state r = Moderate <->
                 silence_state r <> Severe /\ 2 <= moderate_run r).
  { rewrite Hst. unfold label.
    destruct (Nat.leb_spec 3 (severe_run r)), (Nat.leb_spec 2 (moderate_run r));
      split; intros; try discriminate; try lia; try reflexivity;
      try (split; [discriminate | lia]);
      match goal with H : _ /\ _ |- _ => destruct H as [Hn Hk] end;
      try lia; exfalso; apply Hn; reflexivity. }
  rewrite Hmod, Hm. unfold moderate_col.
  rewrite (run_above flag_moderate _ Hsorted i 0 (row r) Hx).
  split.
  - intros [Hn [Hf [j [p [-> [Hp [Hreg Hrun]]]]]]]. split; [exact Hn|].
    apply (run_positive flag_moderate _ Hsorted j p Hp) in Hrun.
    destruct (final_row_at input j p Hp) as [rp [Hrp Ep]].
    exists j, rp. rewrite Ep. repeat split; auto.
  - intros [Hn [j [rp [-> [Hrp [Hreg [Hf Hfp]]]]]]]. split; [exact Hn|].
    apply final_row_cols in Hrp. destruct Hrp as [Hp _].
    split; [exact Hf|]. exists j, (row rp). repeat split; auto.
    apply (run_positive flag_moderate _ Hsorted j (row rp) Hp). exact Hfp.
Qed.

Lemma moderate_is_two_months_witness :
  nth_error (step4 Sample.series) 1 = Some Sample.barpeta_second /\
  (silence_state Sample.barpeta_second = Moderate <->
   silence_state Sample.barpeta_second <> Severe /\
   exists j p,
     1 = S j /\
     nth_error (step4 Sample.series) j = Some p /\
     region (row p) = region (row Sample.barpeta_second) /\
     fltb (suppression_ratio (row Sample.barpeta_second)) (Fin (60 # 100)) = true /\
     fltb (suppression_ratio (row p)) (Fin (60 # 100)) = true).
Proof.
  assert (H : nth_error (step4 Sample.series) 1 = Some Sample.barpeta_second)
    by (vm_compute; reflexivity).
  split; [exact H | exact (moderate_is_two_months _ _ _ H)].
Defined.

(** ** Regions do not interfere *)

(** X9: in the final table the run counters of the rows of a region are the
    runs of the flags of these rows alone, whatever the other regions hold. *)
Theorem runs_per_region (input : list SeriesRow) (g : string) :
  let final := step4 input in
  let rows := group (map (fun r => region (row r)) final) final g in
  map row rows = group (map region (sorted_input input)) (sorted_input input) g /\
  map moderate_run rows = compute_consecutive_runs (map flag_moderate (map row rows)) /\
  map severe_run rows = compute_consecutive_runs (map flag_severe (map row rows)).
Proof.
  cbv zeta.
  assert (Hrows : map row (group (map (fun r => region (row r)) (step4 input)) (step4 input) g)
                  = group (map region (sorted_input input)) (sorted_input input) g).
  { rewrite <- group_map, step4_regions, step4_row_col. reflexivity. }
  split; [exact Hrows|]. rewrite Hrows. split.
  - rewrite <- !group_map, step4_moderate_col, step4_regions. unfold moderate_col.
    apply group_groupby_transform.
    + intros l. apply length_runs.
    + rewrite !length_map. reflexivity.
  - rewrite <- !group_map, step4_severe_col, step4_regions. unfold severe_col.
    apply group_groupby_transform.
    + intros l. apply length_runs.
    + rewrite !length_map. reflexivity.
Qed.

End Step4More.

(* ================================================================== *)
(** * Step 3: what the series holds *)
(* ================================================================== *)

Module Step3More.

Import Float Frame FrameFacts FloatFacts Step3 OrderFacts Step3Facts.

(** ** Monthly aggregation *)

Lemma fold_Qplus (qs : list Q) (x : Q) :
  (fold_left Qplus qs x == x + fold_left Qplus qs 0)%Q.
Proof.
  revert x. induction qs as [|q qs IH]; intros x; simpl.
  - lra.
  - rewrite (IH (x + q)%Q), (IH (0 + q)%Q). lra.
Qed.

Lemma Qsum_cons (q : Q) (qs : list Q) : (Qsum (q :: qs) == q + Qsum qs)%Q.
Proof. unfold Qsum. simpl. rewrite fold_Qplus. lra. Qed.

Lemma activity_add_to (k k' : Key) (a : Q) (acc : list (Key * Q)) :
  (activity_or_zero k (add_to k' a acc)
   == activity_or_zero k acc + (if key_eqb k k' then a else 0))%Q.
Proof.
  unfold activity_or_zero.
  induction acc as [|[k0 s] acc IH]; cbn [add_to].
  - rewrite matches_cons. cbn [fst matches filter].
    destruct (key_eqb k k'); simpl; lra.
  - destruct (key_eqb k' k0) eqn:E0.
    + apply key_eqb_eq in E0. subst k0. rewrite !matches_cons. cbn [fst].
      destruct (key_eqb k k'); simpl; lra.
    + rewrite !matches_cons. cbn [fst].
      destruct (key_eqb k k0) eqn:E1.
      * destruct (key_eqb k k') eqn:E2.
        -- apply key_eqb_eq in E1, E2. subst. rewrite key_eqb_refl in E0. discriminate.
        -- simpl. lra.
      * exact IH.
Qed.

Lemma has_key_add_to (k k' : Key) (a : Q) (acc : list (Key * Q)) :
  has_key k (add_to k' a acc) = has_key k acc || key_eqb k k'.
Proof.
  unfold has_key.
  induction acc as [|[k0 s] acc IH]; cbn [add_to existsb fst].
  - rewrite orb_false_r. reflexivity.
  - destruct (key_eqb k' k0) eqn:E0; cbn [existsb fst].
    + apply key_eqb_eq in E0. subst k0.
      destruct (key_eqb k k'); simpl; [reflexivity | rewrite orb_false_r; reflexivity].
    + rewrite IH. destruct (key_eqb k k0); reflexivity.
Qed.

Lemma groupby_sum_fold (rows : Feed) (k : Key) :
  has_key k (groupby_sum rows) = has_key k rows /\
  (activity_or_zero k (groupby_sum rows) == Qsum (map snd (matches k rows)))%Q.
Proof.
  unfold groupby_sum.
  assert (H : forall acc : list (Key * Q),
    has_key k (fold_left (fun acc row => add_to (fst row) (snd row) acc) rows acc)
      = has_key k acc || has_key k rows /\
    (activity_or_zero k (fold_left (fun acc row => add_to (fst row) (snd row) acc) rows acc)
     == activity_or_zero k acc + Qsum (map snd (matches k rows)))%Q).
  { induction rows as [|[k' a] rows IH]; intros acc; cbn [fold_left fst snd].
    - split; [rewrite orb_false_r; reflexivity|]. unfold Qsum. simpl. lra.
    - destruct (IH (add_to k' a acc)) as [IH1 IH2]. split.
      + rewrite IH1, has_key_add_to. unfold has_key at 4. cbn [existsb fst].
        fold (has_key k rows). rewrite orb_assoc. reflexivity.
      + rewrite IH2, activity_add_to, matches_cons. cbn [fst].
        destruct (key_eqb k k'); cbn [map snd]; [rewrite Qsum_cons|]; lra. }
  destruct (H []) as [H1 H2]. split; [exact H1|].
  rewrite H2. unfold activity_or_zero. simpl. lra.
Qed.

(** X10: the monthly aggregate of a feed has a row for a key exactly when
    the feed has a raw row of this key, and the activity of the aggregate is
    the sum of the activities of these raw rows. *)
Theorem groupby_sum_total (rows : Feed) (k : Key) :
  has_key k (groupby_sum rows) = has_key k rows /\
  (activity_or_zero k (groupby_sum rows) == Qsum (map snd (matches k rows)))%Q.
Proof. apply groupby_sum_fold. Qed.

(** ** The rows of the series and the raw rows *)

Lemma filter_key_map {A} (h : A -> Key) (k : Key) (l : list A) :
  length (filter (fun r => key_eqb k (h r)) l) = length (filter (key_eqb k) (map h l)).
Proof.
  induction l as [|x l IH]; simpl; [reflexivity|].
  destruct (key_eqb k (h x)); simpl; rewrite IH; reflexivity.
Qed.

Lemma NoDup_keys (l : list Key) :
  (forall k, length (filter (key_eqb k) l) <= 1) -> NoDup l.
Proof.
  induction l as [|x l IH]; intros H; constructor.
  - intros Hin. specialize (H x). simpl in H. rewrite key_eqb_refl in H. simpl in H.
    assert (Hx : In x (filter (key_eqb x) l)).
    { apply filter_In. split; [exact Hin | apply key_eqb_refl]. }
    destruct (filter (key_eqb x) l); [contradiction | simpl in H; lia].
  - apply IH. intros k. specialize (H k). simpl in H.
    destruct (key_eqb k x); simpl in H; lia.
Qed.

Lemma merged_row_key (enrol_m demo_m bio_m : list (Key * Q)) (x : MergedRow) :
  unique_keys enrol_m -> unique_keys demo_m -> unique_keys bio_m ->
  In x (merged_frame enrol_m demo_m bio_m) ->
  has_key (m_key x) enrol_m || has_key (m_key x) demo_m || has_key (m_key x) bio_m = true /\
  m_total x = Fin (activity_or_zero (m_key x) enrol_m
                   + activity_or_zero (m_key x) demo_m
                   + activity_or_zero (m_key x) bio_m).
Proof.
  intros He Hd Hb Hx.
  pose proof (merged_frame_key enrol_m demo_m bio_m (m_key x) He Hd Hb) as Hm.
  assert (Hin : In x (filter (fun r => key_eqb (m_key x) (m_key r))
                        (merged_frame enrol_m demo_m bio_m))).
  { apply filter_In. split; [exact Hx | apply key_eqb_refl]. }
  rewrite Hm in Hin.
  destruct (has_key (m_key x) enrol_m || has_key (m_key x) demo_m || has_key (m_key x) bio_m);
    [|contradiction].
  split; [reflexivity|]. destruct Hin as [Hin|[]].
  rewrite <- Hin at 1. reflexivity.
Qed.

Lemma series_row_merged (df : list MergedRow) (r : SeriesRow) :
  In r (series_of df) ->
  exists x, In x df /\ key r = m_key x /\ total_activity r = m_total x.
Proof.
  intros H. apply In_nth_error in H. destruct H as [i H].
  apply series_of_rows in H. destruct H as [x [Hx ->]].
  exists x. split; [|split; reflexivity].
  apply nth_error_In in Hx.
  apply (proj1 (sort_values_In (fun a b => key_leb (m_key a) (m_key b)) _ _)) in Hx.
  exact Hx.
Qed.

Lemma series_keys_nodup (enrol demo bio : Feed) :
  NoDup (map key (step3 enrol demo bio)).
Proof.
  unfold step3.
  set (df := merged_frame (groupby_sum enrol) (groupby_sum demo) (groupby_sum bio)).
  rewrite series_of_keys.
  apply (Permutation_NoDup (l := map m_key df)).
  - apply Permutation_map, Permutation_sym.
    apply (sort_values_perm (fun a b => key_leb (m_key a) (m_key b))).
  - apply NoDup_keys. intros k. rewrite <- filter_key_map. unfold df.
    rewrite merged_frame_key by apply unique_keys_groupby_sum.
    destruct (_ || _); simpl; lia.
Qed.

Lemma series_key_in_feeds (enrol demo bio : Feed) (r : SeriesRow) :
  In r (step3 enrol demo bio) ->
  In (key r) (map fst enrol) \/ In (key r) (map fst demo) \/ In (key r) (map fst bio).
Proof.
  unfold step3. intros Hr.
  apply series_row_merged in Hr. destruct Hr as [x [Hx [Hk _]]].
  apply merged_row_key in Hx; try apply unique_keys_groupby_sum.
  destruct Hx as [Hx _]. rewrite <- Hk in Hx.
  rewrite !orb_true_iff in Hx.
  rewrite !(proj1 (groupby_sum_fold _ _)) in Hx.
  rewrite !has_key_In in Hx. tauto.
Qed.

(** X11: the series has no two rows with the same key, and the key of every
    row is the key of a raw row of at least one of the three feeds: the
    merge invents no region-month. *)
Theorem series_keys_from_feeds (enrol demo bio : Feed) :
  NoDup (map key (step3 enrol demo bio)) /\
  (forall r, In r (step3 enrol demo bio) ->
     In (key r) (map fst enrol) \/ In (key r) (map fst demo) \/ In (key r) (map fst bio)).
Proof.
  split; [apply series_keys_nodup | apply series_key_in_feeds].
Qed.

(** ** Without a negative total *)

Lemma observed_nonneg (win : list fval) :
  (forall v, In v win -> fltb v (Fin 0) = false) ->
  Forall (fun q => (0 <= q)%Q) (observed win).
Proof.
  induction win as [|v win IH]; intros H; [constructor|].
  pose proof (IH (fun u Hu => H u (or_intror Hu))) as IH'.
  pose proof (H v (or_introl eq_refl)) as Hv.
  destruct v; simpl; try exact IH'.
  constructor; [|exact IH']. simpl in Hv. apply Step4More.Qltb_ge in Hv. exact Hv.
Qed.

Lemma Qsum_nonneg (qs : list Q) :
  Forall (fun q => (0 <= q)%Q) qs -> (0 <= Qsum qs)%Q.
Proof.
  induction 1 as [|q qs Hq _ IH]; [unfold Qsum; simpl; lra|].
  rewrite Qsum_cons. lra.
Qed.

Lemma inject_nat_pos (n : nat) : 0 < n -> (0 < inject_Z (Z.of_nat n))%Q.
Proof.
  intros H. replace 0%Q with (inject_Z 0) by reflexivity.
  rewrite <- Zlt_Qlt. lia.
Qed.

(** The mean of a window without a negative cell is not negative. *)
Lemma mean_min_nonneg (min_periods : nat) (win : list fval) :
  (forall v, In v win -> fltb v (Fin 0) = false) ->
  mean_min min_periods win = NaN \/
  exists b, mean_min min_periods win = Fin b /\ (0 <= b)%Q.
Proof.
  intros H. unfold mean_min.
  destruct ((min_periods <=? length (observed win)) && (0 <? length (observed win))) eqn:E;
    [right | left; reflexivity].
  apply andb_true_iff in E. destruct E as [_ E]. apply Nat.ltb_lt in E.
  eexists. split; [reflexivity|].
  pose proof (Qsum_nonneg _ (observed_nonneg win H)) as Hs.
  apply Qle_shift_div_l; [apply inject_nat_pos, E | lra].
Qed.

(** The ratio of a total that is not negative to a baseline that is
    missing or not negative. *)
Lemma ratio_nonneg (t b : fval) :
  fltb t (Fin 0) = false ->
  b = NaN \/ (exists q, b = Fin q /\ (0 <= q)%Q) ->
  exists a, ratio t b = Fin a /\ (0 <= a)%Q.
Proof.
  intros Ht [->|[q [-> Hq]]].
  - exists 0%Q. split; [destruct t; reflexivity | lra].
  - destruct t as [| | |x]; simpl in Ht; try discriminate.
    + exists 0%Q. split; [reflexivity | lra].
    + exists 0%Q. split; [|lra]. unfold ratio, fdiv. destruct (Qltb q 0); reflexivity.
    + apply Step4More.Qltb_ge in Ht. unfold ratio, fdiv.
      destruct (Qeq_bool q 0) eqn:E.
      * exists 0%Q. split; [|lra]. unfold inf_of_sign. destruct (Qsgn x); reflexivity.
      * apply Qeq_bool_neq in E. exists (x / q)%Q. split; [reflexivity|].
        apply Qle_shift_div_l; lra.
Qed.

(** On a merged frame without a negative total: the baseline and the ratio
    of a row of the series. *)
Lemma series_row_nonneg (df : list MergedRow) (r : SeriesRow) :
  (forall x, In x df -> fltb (m_total x) (Fin 0) = false) ->
  In r (series_of df) ->
  (exists a, suppression_ratio r = Fin a /\ (0 <= a)%Q) /\
  (baseline_total_ma6 r = NaN \/
   exists b, baseline_total_ma6 r = Fin b /\ (0 <= b)%Q).
Proof.
  intros Hdf Hr.
  assert (Hvals : forall v, In v (map total_activity (series_of df)) ->
                            fltb v (Fin 0) = false).
  { intros v Hv. rewrite series_of_totals in Hv.
    apply in_map_iff in Hv. destruct Hv as [x [<- Hx]].
    apply (proj1 (sort_values_In (fun a b => key_leb (m_key a) (m_key b)) _ _)) in Hx.
    apply Hdf, Hx. }
  pose proof (Hvals _ (in_map total_activity _ _ Hr)) as Ht.
  assert (Hbase : baseline_total_ma6 r = NaN \/
                  exists b, baseline_total_ma6 r = Fin b /\ (0 <= b)%Q).
  { pose proof Hr as Hi. apply In_nth_error in Hi. destruct Hi as [i Hi].
    pose proof (baseline_row df i r Hi) as [_ Hb]. cbv zeta in Hb. rewrite Hb.
    apply mean_min_nonneg. intros v Hv. apply Hvals.
    apply window_In in Hv. apply group_In in Hv. exact Hv. }
  split; [|exact Hbase].
  rewrite (PipelineFacts.series_row_ratio df r Hr).
  apply ratio_nonneg; assumption.
Qed.

End Step3More.

(* ================================================================== *)
(** * The dashboard: categories, trends, actions, ranking *)
(* ================================================================== *)

Module DashboardFacts.

Import Float Frame FrameFacts FloatFacts Step3 Step4 App Dashboard OrderFacts
       Step3Facts Step4Facts PipelineFacts AppFacts Step4More.

(** ** SZI of a row of the final table *)

Lemma clip_unit (x : fval) :
  (x = NaN /\ clip (Fin 0) (Fin 1) x = NaN) \/
  (exists q, clip (Fin 0) (Fin 1) x = Fin q /\ (0 <= q)%Q /\ (q <= 1)%Q /\
             (fltb x (Fin (60 # 100)) = true -> (q < 60 # 100)%Q) /\
             (fltb x (Fin (40 # 100)) = true -> (q < 40 # 100)%Q)).
Proof.
  destruct x as [| | |a].
  - left. split; reflexivity.
  - right. exists 1%Q. split; [reflexivity|]. repeat split; intros; try lra; discriminate.
  - right. exists 0%Q. split; [reflexivity|]. repeat split; intros; try lra; discriminate.
  - right. unfold clip, fgtb, fltb.
    destruct (Qltb a 0) eqn:E0; [apply Qltb_lt in E0 | apply Qltb_ge in E0];
      (destruct (Qltb 1 a) eqn:E1; [apply Qltb_lt in E1 | apply Qltb_ge in E1]);
      eexists; (split; [reflexivity|]);
      repeat split; try lra; intros H; apply Qltb_lt in H; lra.
Qed.

Lemma final_row_szi (input : list SeriesRow) (r : FinalRow) :
  In r (step4 input) -> SZI r = clip (Fin 0) (Fin 1) (suppression_ratio (row r)).
Proof.
  intros H. apply step4_finalize in H. destruct H as [x [m [s ->]]]. reflexivity.
Qed.

(** A run counter of a row is 0 unless its flag holds. *)
Lemma final_row_flags (input : list SeriesRow) (i : nat) (r : FinalRow) :
  nth_error (step4 input) i = Some r ->
  (1 <= moderate_run r <-> fltb (suppression_ratio (row r)) (Fin (60 # 100)) = true) /\
  (1 <= severe_run r <-> fltb (suppression_ratio (row r)) (Fin (40 # 100)) = true).
Proof.
  intros Hr.
  pose proof (final_row_cols _ _ _ Hr) as [Hx [Hm [Hs _]]].
  pose proof (sorted_input_sorted input) as Hsorted.
  pose proof (run_positive flag_moderate _ Hsorted i (row r) Hx) as Pm.
  pose proof (run_positive flag_severe _ Hsorted i (row r) Hx) as Ps.
  fold (moderate_col input) in Pm. fold (severe_col input) in Ps.
  rewrite <- Hm in Pm. rewrite <- Hs in Ps. split; assumption.
Qed.

(** ** Categories *)

(** X14: the category of the dashboard and the state of step 4 agree at the
    ends: a row of the final table that the dashboard puts in category
    Normal has both run counters at 0, state Normal and no alert; a Severe row
    is in category Severe Silence or Moderate Silence. *)
Theorem category_and_state (input : list SeriesRow) (i : nat) (r : FinalRow) :
  nth_error (step4 input) i = Some r ->
  (cat (SZI r) = "Normal"%string ->
     moderate_run r = 0 /\ severe_run r = 0 /\
     silence_state r = Normal /\ alert_flag r = 0) /\
  (silence_state r = Severe ->
     cat (SZI r) = "Severe Silence"%string \/ cat (SZI r) = "Moderate Silence"%string).
Proof.
  intros Hr.
  pose proof (final_row_flags _ _ _ Hr) as [Pm Ps].
  pose proof (final_row_columns _ _ (nth_error_In _ _ Hr)) as [Hst [_ Hal]].
  assert (Hsev : silence_state r = Severe -> 3 <= severe_run r).
  { rewrite Hst. unfold label.
    destruct (Nat.leb_spec 3 (severe_run r)); [lia|].
    destruct (2 <=? moderate_run r); discriminate. }
  rewrite (final_row_szi input r (nth_error_In _ _ Hr)).
  destruct (clip_unit (suppression_ratio (row r))) as [[E ->]|[q [-> [H0 [H1 [H60 H40]]]]]].
  - split; [discriminate|]. intros HS. apply Hsev in HS.
    assert (Hf : fltb (suppression_ratio (row r)) (Fin (40 # 100)) = true) by (apply Ps; lia).
    rewrite E in Hf. discriminate.
  - unfold cat. cbn [isna fleb].
    destruct (Qle_bool q (30 # 100)) eqn:E30; [|destruct (Qle_bool q (60 # 100)) eqn:E60].
    + split; [discriminate | intros _; left; reflexivity].
    + split; [discriminate | intros _; right; reflexivity].
    + assert (Hq : (60 # 100 < q)%Q).
      { apply Qnot_le_lt. intros Hle. apply Qle_bool_iff in Hle. congruence. }
      assert (Hm0 : moderate_run r = 0).
      { destruct (moderate_run r) as [|m]; [reflexivity|].
        assert (Hc : (q < 60 # 100)%Q) by (apply H60, Pm; lia). lra. }
      assert (Hs0 : severe_run r = 0).
      { destruct (severe_run r) as [|m]; [reflexivity|].
        assert (Hc : (q < 40 # 100)%Q) by (apply H40, Ps; lia). lra. }
      split.
      * intros _. rewrite Hal, Hst, Hm0, Hs0. repeat split; reflexivity.
      * intros HS. apply Hsev in HS. lia.
Qed.

Lemma category_and_state_witness :
  nth_error (step4 Sample.series) 8 = Some Sample.gangtok_last /\
  (cat (SZI Sample.gangtok_last) = "Normal"%string ->
     moderate_run Sample.gangtok_last = 0 /\ severe_run Sample.gangtok_last = 0 /\
     silence_state Sample.gangtok_last = Normal /\ alert_flag Sample.gangtok_last = 0) /\
  (silence_state Sample.gangtok_last = Severe ->
     cat (SZI Sample.gangtok_last) = "Severe Silence"%string \/
     cat (SZI Sample.gangtok_last) = "Moderate Silence"%string).
Proof.
  assert (H : nth_error (step4 Sample.series) 8 = Some Sample.gangtok_last)
    by (vm_compute; reflexivity).
  split; [exact H | exact (category_and_state _ _ _ H)].
Defined.

(** X15: [load_data] drops no row of the final table of the two steps, and
    puts none of them in category Unknown. *)
Theorem load_data_keeps_final_table (df : list MergedRow) :
  map final (load_data (step4 (series_of df))) = step4 (series_of df) /\
  (forall z, In z (load_data (step4 (series_of df))) ->
     SZI_Category z = cat (SZI (final z)) /\ SZI_Category z <> "Unknown"%string).
Proof.
  assert (Hfin : forall r, In r (step4 (series_of df)) -> isna (SZI r) = false).
  { intros r Hr. rewrite (final_row_szi _ r Hr).
    destruct (final_row_of_series df r Hr) as [a [m [s [_ [Ha _]]]]]. rewrite Ha.
    destruct (clip_unit (Fin a)) as [[E _]|[q [-> _]]]; [discriminate | reflexivity]. }
  unfold load_data. split.
  - induction (step4 (series_of df)) as [|r t IH]; [reflexivity|].
    cbn [map filter final]. rewrite (Hfin r (or_introl eq_refl)). cbn [negb map final].
    f_equal. apply IH. intros r' Hr'. apply Hfin. right. exact Hr'.
  - intros z Hz. apply filter_In in Hz. destruct Hz as [Hz Hna].
    apply in_map_iff in Hz. destruct Hz as [r [<- Hr]]. cbn [SZI_Category final] in *.
    split; [reflexivity|]. unfold cat. rewrite (Hfin r Hr).
    destruct (fleb (SZI r) (Fin (30 # 100))); [discriminate|].
    destruct (fleb (SZI r) (Fin (60 # 100))); discriminate.
Qed.

(** ** Trends *)

Lemma nth_removelast {A} (d : A) (l : list A) (q : nat) :
  S q < length l -> nth q (removelast l) d = nth q l d.
Proof.
  revert q. induction l as [|x l IH]; intros q Hq; simpl in Hq; [lia|].
  destruct l as [|y l]; [simpl in Hq; lia|].
  cbn [removelast]. destruct q as [|q]; [reflexivity|].
  cbn [nth]. apply IH. simpl. simpl in Hq. lia.
Qed.

Lemma nth_shift1 (xs : list fval) (r : nat) :
  r < length xs ->
  nth r (shift1 xs) NaN = match r with 0 => NaN | S q => nth q xs NaN end.
Proof.
  intros Hr. destruct xs as [|x xs]; [simpl in Hr; lia|].
  unfold shift1. destruct r as [|q]; [reflexivity|].
  change (nth (S q) (NaN :: removelast (x :: xs)) NaN)
    with (nth q (removelast (x :: xs)) NaN).
  apply nth_removelast. exact Hr.
Qed.

(** The previous value of a row in a column shifted by group, for keys in
    order: the cell of the row before when it has the same key. *)
Lemma nth_shift_column (keys : list string) (vals : list fval) (i : nat) :
  StronglySorted (fun a b => String.leb a b = true) keys ->
  length keys = length vals ->
  i < length keys ->
  nth i (groupby_transform shift1 NaN keys vals) NaN =
  match i with
  | 0 => NaN
  | S j =>
      if String.eqb (nth j keys EmptyString) (nth i keys EmptyString)
      then nth j vals NaN else NaN
  end.
Proof.
  intros Hs Hlen Hi.
  rewrite nth_groupby_transform by exact Hi.
  rewrite nth_shift1 by (rewrite length_group by exact Hlen; apply rank_lt, Hi).
  destruct i as [|j]; [reflexivity|].
  destruct (String.eqb (nth j keys EmptyString) (nth (S j) keys EmptyString)) eqn:E.
  - apply String.eqb_eq in E.
    rewrite (rank_same keys j Hi E), <- E.
    apply nth_rank_group; [exact Hlen | lia].
  - apply String.eqb_neq in E. rewrite (rank_new keys j Hs Hi E). reflexivity.
Qed.

Lemma zone_leb_total (a b : Zone) : zone_leb a b = true \/ zone_leb b a = true.
Proof. apply key_leb_total. Qed.

Lemma zone_leb_trans (a b c : Zone) :
  zone_leb a b = true -> zone_leb b c = true -> zone_leb a c = true.
Proof. apply key_leb_trans. Qed.

Lemma sorted_zone_regions (d : list Zone) :
  StronglySorted (fun a b => String.leb a b = true)
                 (map zone_region (sort_values zone_leb d)).
Proof.
  apply (StronglySorted_map zone_region (fun a b => zone_leb a b = true)).
  - intros a b. apply key_leb_region.
  - apply sort_values_sorted; [apply zone_leb_total | apply zone_leb_trans].
Qed.

(** A row of the trends: its zone, and the SZI of the month before. *)
Lemma trend_row (d : list Zone) (i : nat) (t : Trend) :
  nth_error (compute_trends d) i = Some t ->
  nth_error (sort_values zone_leb d) i = Some (trend_zone t) /\
  SZI_prev t =
    match i with
    | 0 => NaN
    | S j =>
        match nth_error (sort_values zone_leb d) j with
        | Some p =>
            if String.eqb (zone_region p) (zone_region (trend_zone t))
            then SZI (final p) else NaN
        | None => NaN
        end
    end /\
  SZI_delta t = fsub (SZI (final (trend_zone t))) (SZI_prev t) /\
  Pre_Silence_Warning t =
    fltb (SZI_delta t) (Fin (- 8 # 100))
    && fgtb (SZI (final (trend_zone t))) (Fin (30 # 100)).
Proof.
  unfold compute_trends. set (sd := sort_values zone_leb d).
  set (prev := groupby_transform shift1 NaN (map zone_region sd)
                 (map (fun z => SZI (final z)) sd)).
  intros H. rewrite nth_error_map in H.
  destruct (nth_error (combine sd prev) i) as [[z p]|] eqn:E; [|discriminate].
  simpl in H. injection H as <-. cbn [trend_zone SZI_prev SZI_delta Pre_Silence_Warning].
  apply nth_error_combine in E. destruct E as [Hz Hp].
  split; [exact Hz|]. split; [|split; reflexivity].
  assert (Hi : i < length (map zone_region sd)).
  { rewrite length_map. apply nth_error_Some. congruence. }
  rewrite <- (nth_error_nth _ _ NaN Hp). unfold prev.
  rewrite nth_shift_column;
    [| apply sorted_zone_regions | rewrite !length_map; reflexivity | exact Hi].
  destruct i as [|j]; [reflexivity|].
  destruct (nth_error sd j) as [pz|] eqn:Hpz.
  - rewrite (nth_map_error zone_region EmptyString sd j pz Hpz).
    rewrite (nth_map_error zone_region EmptyString sd (S j) z Hz).
    rewrite (nth_map_error (fun z => SZI (final z)) NaN sd j pz Hpz). reflexivity.
  - apply nth_error_None in Hpz. rewrite length_map in Hi. lia.
Qed.

Lemma trend_at (d : list Zone) (j : nat) (z : Zone) :
  nth_error (sort_values zone_leb d) j = Some z ->
  exists p, nth_error (compute_trends d) j = Some p /\ trend_zone p = z.
Proof.
  intros Hz.
  assert (Hj : j < length (compute_trends d)).
  { unfold compute_trends. rewrite length_map, length_combine,
      length_groupby_transform, length_map, Nat.min_id.
    apply nth_error_Some. congruence. }
  destruct (nth_error (compute_trends d) j) as [p|] eqn:Hp;
    [|apply nth_error_None in Hp; lia].
  exists p. split; [reflexivity|].
  apply trend_row in Hp. destruct Hp as [Hp _]. congruence.
Qed.

Lemma loaded_szi (input : list SeriesRow) (z : Zone) :
  In z (load_data (step4 input)) ->
  exists q, SZI (final z) = Fin q /\ (0 <= q)%Q /\ (q <= 1)%Q.
Proof.
  unfold load_data. intros Hz. apply filter_In in Hz. destruct Hz as [Hz Hna].
  apply in_map_iff in Hz. destruct Hz as [r [<- Hr]]. cbn [final] in *.
  rewrite (final_row_szi input r Hr) in *.
  destruct (clip_unit (suppression_ratio (row r))) as [[_ E]|[q [E [H0 [H1 _]]]]].
  - rewrite E in Hna. discriminate.
  - exists q. auto.
Qed.

(** X16: on the loaded final table a pre-silence warning is raised on a row
    exactly when the row before it in (region, month) order is the previous
    month of the same region, the SZI has dropped by more than 0.08 since
    that month, and the SZI is still above 0.30; the first month of a region
    never has a warning. *)
Theorem warning_is_a_drop (input : list SeriesRow) (i : nat) (t : Trend) :
  nth_error (compute_trends (load_data (step4 input))) i = Some t ->
  (Pre_Silence_Warning t = true <->
   exists j p a b,
     i = S j /\
     nth_error (compute_trends (load_data (step4 input))) j = Some p /\
     zone_region (trend_zone p) = zone_region (trend_zone t) /\
     SZI (final (trend_zone t)) = Fin a /\
     SZI (final (trend_zone p)) = Fin b /\
     (a < b - (8 # 100))%Q /\ (30 # 100 < a)%Q /\ (b <= 1)%Q).
Proof.
  intros Ht. set (d := load_data (step4 input)) in *.
  pose proof (trend_row d i t Ht) as [Hz [Hprev [Hdelta Hw]]].
  assert (Hin : forall j z, nth_error (sort_values zone_leb d) j = Some z ->
                  exists q, SZI (final z) = Fin q /\ (0 <= q)%Q /\ (q <= 1)%Q).
  { intros j z Hj. apply nth_error_In in Hj.
    apply (proj1 (sort_values_In zone_leb _ _)) in Hj. apply (loaded_szi input z Hj). }
  destruct (Hin i _ Hz) as [a [Ha [Ha0 Ha1]]].
  rewrite Hw, Hdelta, Ha. split.
  - intros H. apply andb_true_iff in H. destruct H as [Hd H30].
    destruct i as [|j]; [rewrite Hprev in Hd; discriminate|].
    destruct (nth_error (sort_values zone_leb d) j) as [pz|] eqn:Hpz;
      [|rewrite Hprev in Hd; discriminate].
    destruct (String.eqb (zone_region pz) (zone_region (trend_zone t))) eqn:E;
      [|rewrite Hprev in Hd; discriminate].
    apply String.eqb_eq in E.
    destruct (Hin j pz Hpz) as [b [Hb [Hb0 Hb1]]].
    destruct (trend_at d j pz Hpz) as [p [Hp Ep]].
    exists j, p, a, b. rewrite Ep. repeat split; auto.
    + rewrite Hprev, Hb in Hd. cbn in Hd. apply Qltb_lt in Hd. lra.
    + cbn in H30. apply Qltb_lt in H30. exact H30.
  - intros [j [p [a' [b [-> [Hp [Hreg [Ha' [Hb [Hdrop [H30 Hb1]]]]]]]]]]].
    injection Ha' as <-.
    apply trend_row in Hp. destruct Hp as [Hpz _].
    rewrite Hprev, Hpz, (proj2 (String.eqb_eq _ _) Hreg), Hb.
    apply andb_true_iff. split; cbn; apply Qltb_lt; lra.
Qed.

Lemma warning_is_a_drop_witness :
  nth_error (compute_trends (load_data (step4 Sample.series))) 6
    = Some SampleDashboard.gangtok_drop /\
  (Pre_Silence_Warning SampleDashboard.gangtok_drop = true <->
   exists j p a b,
     6 = S j /\
     nth_error (compute_trends (load_data (step4 Sample.series))) j = Some p /\
     zone_region (trend_zone p) = zone_region (trend_zone SampleDashboard.gangtok_drop) /\
     SZI (final (trend_zone SampleDashboard.gangtok_drop)) = Fin a /\
     SZI (final (trend_zone p)) = Fin b /\
     (a < b - (8 # 100))%Q /\ (30 # 100 < a)%Q /\ (b <= 1)%Q) /\
  Pre_Silence_Warning SampleDashboard.gangtok_drop = true.
Proof.
  assert (H : nth_error (compute_trends (load_data (step4 Sample.series))) 6
              = Some SampleDashboard.gangtok_drop) by (vm_compute; reflexivity).
  split; [exact H|]. split; [exact (warning_is_a_drop _ _ _ H) | reflexivity].
Defined.

(** ** Ranking *)

Lemma score_before_total (a b : Scored) :
  score_before a b = true \/ score_before b a = true.
Proof.
  unfold score_before, fgeb.
  destruct (Priority_Score a) as [| | |x], (Priority_Score b) as [| | |y]; simpl; auto.
  destruct (Qle_bool y x) eqn:E; [left; reflexivity|].
  right. apply Qle_bool_iff.
  assert (H : ~ (y <= x)%Q) by (intros H; apply Qle_bool_iff in H; congruence).
  apply Qnot_le_lt in H. lra.
Qed.

Lemma score_before_trans (a b c : Scored) :
  score_before a b = true -> score_before b c = true -> score_before a c = true.
Proof.
  unfold score_before, fgeb.
  destruct (Priority_Score a) as [| | |x], (Priority_Score b) as [| | |y],
    (Priority_Score c) as [| | |z]; simpl; try congruence.
  rewrite !Qle_bool_iff. intros. lra.
Qed.

(** X17: the priority engine returns the records by score, greatest first,
    and the records without a score (NaN) after all the others. *)
Theorem priority_engine_ranks (d : list FinalRow) (i j : nat) (x y : Scored) :
  nth_error (priority_engine d) i = Some x ->
  nth_error (priority_engine d) j = Some y ->
  i < j ->
  Priority_Score y = NaN \/
  (isna (Priority_Score x) = false /\ fleb (Priority_Score y) (Priority_Score x) = true).
Proof.
  intros Hx Hy Hij.
  assert (Hs : StronglySorted (fun a b => score_before a b = true) (priority_engine d)).
  { unfold priority_engine. apply sort_values_sorted;
      [apply score_before_total | apply score_before_trans]. }
  assert (Hj : j < length (priority_engine d)) by (apply nth_error_Some; congruence).
  pose proof (StronglySorted_nth _ x _ Hs i j Hij Hj) as H.
  rewrite (nth_error_nth _ _ x Hx), (nth_error_nth _ _ x Hy) in H.
  unfold score_before, fgeb in H.
  destruct (Priority_Score y) as [| | |b]; [left; reflexivity | | |];
    right; destruct (Priority_Score x) as [| | |a]; try discriminate;
    split; try reflexivity; exact H.
Qed.

Lemma priority_engine_ranks_witness :
  nth_error (priority_engine Sample.final) 0
    = Some (nth 0 (priority_engine Sample.final) (mkScored Sample.blank NaN NaN NaN NaN NaN)) /\
  nth_error (priority_engine Sample.final) 1
    = Some (nth 1 (priority_engine Sample.final) (mkScored Sample.blank NaN NaN NaN NaN NaN)) /\
  0 < 1 /\
  (Priority_Score (nth 1 (priority_engine Sample.final) (mkScored Sample.blank NaN NaN NaN NaN NaN))
     = NaN \/
   (isna (Priority_Score
            (nth 0 (priority_engine Sample.final) (mkScored Sample.blank NaN NaN NaN NaN NaN)))
      = false /\
    fleb (Priority_Score
            (nth 1 (priority_engine Sample.final) (mkScored Sample.blank NaN NaN NaN NaN NaN)))
         (Priority_Score
            (nth 0 (priority_engine Sample.final) (mkScored Sample.blank NaN NaN NaN NaN NaN)))
      = true)).
Proof.
  assert (H0 : nth_error (priority_engine Sample.final) 0
    = Some (nth 0 (priority_engine Sample.final) (mkScored Sample.blank NaN NaN NaN NaN NaN)))
    by (vm_compute; reflexivity).
  assert (H1 : nth_error (priority_engine Sample.final) 1
    = Some (nth 1 (priority_engine Sample.final) (mkScored Sample.blank NaN NaN NaN NaN NaN)))
    by (vm_compute; reflexivity).
  assert (H : 0 < 1) by lia.
  split; [exact H0|]. split; [exact H1|]. split; [exact H|].
  exact (priority_engine_ranks _ _ _ _ _ H0 H1 H).
Defined.

(** ** Records without a score *)

Lemma weighted_nan (risk dur depth impact : fval) :
  dur = NaN \/ impact = NaN -> weighted risk dur depth impact = NaN.
Proof.
  unfold weighted. intros [-> | ->].
  - destruct (fmul (Fin (35 # 100)) risk), (fmul (Fin (25 # 100)) depth),
      (fmul (Fin (15 # 100)) impact); reflexivity.
  - destruct (fadd (fadd (fmul (Fin (35 # 100)) risk) (fmul (Fin (25 # 100)) dur))
                   (fmul (Fin (25 # 100)) depth)); reflexivity.
Qed.

Lemma scored_row (d : list FinalRow) (x : Scored) :
  In x (priority_engine d) ->
  In (zone x) d /\
  Priority_Score x =
    weighted (fsub (Fin 1) (SZI (zone x)))
             (fdiv (of_nat (silence_duration_months (zone x))) (max_duration d))
             (fdiv (suppression_depth_pct (zone x)) (Fin 100))
             (fdiv (baseline_total_ma6 (row (zone x))) (max_baseline d)).
Proof.
  unfold priority_engine. intros Hx.
  apply (proj1 (sort_values_In score_before _ _)) in Hx.
  apply in_map_iff in Hx. destruct Hx as [r [<- Hr]]. split; [exact Hr | reflexivity].
Qed.

(** X18: a record without a baseline, as the first two months of a region
    are, has no priority score (NaN), whatever the rest of the selection. *)
Theorem no_baseline_no_score (d : list FinalRow) (x : Scored) :
  In x (priority_engine d) ->
  baseline_total_ma6 (row (zone x)) = NaN ->
  Priority_Score x = NaN.
Proof.
  intros Hx Hb. apply scored_row in Hx. destruct Hx as [_ ->].
  apply weighted_nan. right. rewrite Hb. reflexivity.
Qed.

Lemma no_baseline_no_score_witness :
  In (nth 11 (priority_engine Sample.final) (mkScored Sample.blank NaN NaN NaN NaN NaN))
     (priority_engine Sample.final) /\
  baseline_total_ma6
    (row (zone (nth 11 (priority_engine Sample.final)
                  (mkScored Sample.blank NaN NaN NaN NaN NaN)))) = NaN /\
  Priority_Score (nth 11 (priority_engine Sample.final)
                    (mkScored Sample.blank NaN NaN NaN NaN NaN)) = NaN.
Proof.
  assert (H : In (nth 11 (priority_engine Sample.final)
                    (mkScored Sample.blank NaN NaN NaN NaN NaN))
                 (priority_engine Sample.final)).
  { apply nth_In. vm_compute. lia. }
  assert (Hb : baseline_total_ma6
    (row (zone (nth 11 (priority_engine Sample.final)
                  (mkScored Sample.blank NaN NaN NaN NaN NaN)))) = NaN)
    by (vm_compute; reflexivity).
  split; [exact H|]. split; [exact Hb|]. exact (no_baseline_no_score _ _ H Hb).
Defined.

(** X19: when no record of the selection is in a streak (every duration is
    0, as on a selection of Normal rows), no record gets a priority score:
    the duration is divided by a maximum of 0. *)
Theorem no_streak_no_score (d : list FinalRow) (x : Scored) :
  (forall r, In r d -> silence_duration_months r = 0) ->
  In x (priority_engine d) ->
  Priority_Score x = NaN.
Proof.
  intros Hd Hx. apply scored_row in Hx. destruct Hx as [Hz ->].
  apply weighted_nan. left. rewrite (Hd _ Hz).
  unfold max_duration.
  destruct (col_max_in (map (fun r => of_nat (silence_duration_months r)) d)) as [->|Hin].
  - reflexivity.
  - apply in_map_iff in Hin. destruct Hin as [r [Hr Hrd]].
    rewrite <- Hr, (Hd _ Hrd). reflexivity.
Qed.

Lemma no_streak_no_score_witness :
  (forall r, In r SampleDashboard.gangtok_calm -> silence_duration_months r = 0) /\
  In (nth 0 (priority_engine SampleDashboard.gangtok_calm)
        (mkScored Sample.blank NaN NaN NaN NaN NaN))
     (priority_engine SampleDashboard.gangtok_calm) /\
  Priority_Score (nth 0 (priority_engine SampleDashboard.gangtok_calm)
                    (mkScored Sample.blank NaN NaN NaN NaN NaN)) = NaN.
Proof.
  assert (Hd : forall r, In r SampleDashboard.gangtok_calm -> silence_duration_months r = 0).
  { intros r [<-|[<-|[]]]; reflexivity. }
  assert (H : In (nth 0 (priority_engine SampleDashboard.gangtok_calm)
                    (mkScored Sample.blank NaN NaN NaN NaN NaN))
                 (priority_engine SampleDashboard.gangtok_calm)).
  { apply nth_In. vm_compute. lia. }
  split; [exact Hd|]. split; [exact H|]. exact (no_streak_no_score _ _ Hd H).
Defined.

(** ** Actions *)

Lemma final_row_depth (input : list SeriesRow) (r : FinalRow) :
  In r (step4 input) -> suppression_depth_pct r = depth_pct (suppression_ratio (row r)).
Proof.
  intros H. apply step4_finalize in H. destruct H as [x [m [s ->]]]. reflexivity.
Qed.

Lemma depth_at_least_50 (a : Q) :
  fgeb (depth_pct (Fin a)) (Fin 50) = Qle_bool a (50 # 100).
Proof.
  unfold depth_pct, clip_lower, fgeb, fsub, fmul, fadd, fopp, fltb, fleb.
  destruct (Qltb ((1 + - a) * 100) 0) eqn:E2;
    [apply Qltb_lt in E2 | apply Qltb_ge in E2];
    (destruct (Qle_bool a (50 # 100)) eqn:E3;
       [apply Qle_bool_iff in E3
       | assert (H3 : ~ (a <= 50 # 100)%Q)
           by (intros H; apply Qle_bool_iff in H; congruence);
         apply Qnot_le_lt in H3]).
  - lra.
  - apply not_true_is_false. intros H. apply Qle_bool_iff in H. lra.
  - apply Qle_bool_iff. lra.
  - apply not_true_is_false. intros H. apply Qle_bool_iff in H. lra.
Qed.

(** X20: on the final table of the two steps the action planner gives the
    immediate action exactly to the Severe rows whose severe run is at least
    4 and to the Moderate rows whose moderate run is at least 4 and whose
    ratio is at most 0.50; a Normal row never gets it. *)
Theorem immediate_action (df : list MergedRow) (i : nat) (r : FinalRow) :
  nth_error (step4 (series_of df)) i = Some r ->
  (dynamic_recommendation r = "Immediate mobile enrollment + infra audit"%string <->
   (silence_state r = Severe /\ 4 <= severe_run r) \/
   (silence_state r = Moderate /\ 4 <= moderate_run r /\
    fleb (suppression_ratio (row r)) (Fin (50 # 100)) = true)).
Proof.
  intros Hr. pose proof (nth_error_In _ _ Hr) as Hin.
  pose proof (final_row_flags _ _ _ Hr) as [_ Ps].
  pose proof (final_row_columns _ _ Hin) as [Hst [Hd _]].
  destruct (final_row_of_series df r Hin) as [a [_ [_ [_ [Ha _]]]]].
  assert (Hcond : (4 <=? silence_duration_months r)
                  && fgeb (suppression_depth_pct r) (Fin 50) = true <->
                  (silence_state r = Severe /\ 4 <= severe_run r) \/
                  (silence_state r = Moderate /\ 4 <= moderate_run r /\
                   fleb (suppression_ratio (row r)) (Fin (50 # 100)) = true)).
  { rewrite (final_row_depth _ r Hin), Hd, Hst, Ha in *. rewrite depth_at_least_50.
    cbn [fleb]. unfold duration, label.
    assert (Hsev : 1 <= severe_run r -> Qle_bool a (50 # 100) = true).
    { intros H1. apply Ps in H1. cbn in H1. apply Qltb_lt in H1.
      apply Qle_bool_iff. lra. }
    destruct (Nat.leb_spec 3 (severe_run r)) as [H3|H3];
      [pose proof (Hsev ltac:(lia)) as Hhalf|];
      destruct (Nat.leb_spec 2 (moderate_run r)) as [H2|H2];
      cbn [state_eqb];
      match goal with
      | |- context [4 <=? ?X] => destruct (Nat.leb_spec 4 X)
      end;
      rewrite andb_true_iff;
      intuition (try discriminate; try lia; try congruence). }
  unfold dynamic_recommendation.
  destruct ((4 <=? silence_duration_months r) && fgeb (suppression_depth_pct r) (Fin 50)).
  - split; [intros _; apply Hcond; reflexivity | reflexivity].
  - split.
    + destruct (fltb (bio_activity (row r)) (demo_activity (row r)));
        [discriminate|].
      destruct (fltb (enrol_activity (row r)) (fmul (baseline_total_ma6 (row r)) (Fin (4 # 10))));
        discriminate.
    + intros H. apply Hcond in H. discriminate.
Qed.

Lemma immediate_action_witness :
  nth_error (step4 (series_of Sample.merged)) 8 = Some Sample.gangtok_last /\
  (dynamic_recommendation Sample.gangtok_last
     = "Immediate mobile enrollment + infra audit"%string <->
   (silence_state Sample.gangtok_last = Severe /\ 4 <= severe_run Sample.gangtok_last) \/
   (silence_state Sample.gangtok_last = Moderate /\ 4 <= moderate_run Sample.gangtok_last /\
    fleb (suppression_ratio (row Sample.gangtok_last)) (Fin (50 # 100)) = true)).
Proof.
  assert (H : nth_error (step4 (series_of Sample.merged)) 8 = Some Sample.gangtok_last)
    by (vm_compute; reflexivity).
  split; [exact H | exact (immediate_action _ _ _ H)].
Defined.

(** ** The range of the score *)

Lemma fdiv_fraction (x y : Q) :
  (0 <= x)%Q -> (x <= y)%Q ->
  fdiv (Fin x) (Fin y) = NaN \/
  exists f, fdiv (Fin x) (Fin y) = Fin f /\ (0 <= f)%Q /\ (f <= 1)%Q.
Proof.
  intros Hx Hxy. unfold fdiv.
  destruct (Qeq_bool y 0) eqn:E.
  - left. apply Qeq_bool_iff in E.
    assert (Hx0 : (0 == x)%Q) by lra.
    unfold inf_of_sign, Qsgn. apply Qeq_alt in Hx0. rewrite Hx0. reflexivity.
  - right. apply Qeq_bool_neq in E.
    assert (Hy : (0 < y)%Q).
    { destruct (Qlt_le_dec 0 y) as [H|H]; [exact H|]. exfalso. apply E. lra. }
    eexists. split; [reflexivity|]. split.
    + apply Qle_shift_div_l; [exact Hy | lra].
    + apply Qle_shift_div_r; [exact Hy | lra].
Qed.

Lemma score_of_rows_in_range (d : list FinalRow) (x : Scored) :
  (forall r, In r d -> in_range r) ->
  In x (priority_engine d) ->
  Priority_Score x = NaN \/
  exists s, Priority_Score x = Fin s /\ (0 <= s)%Q /\ (s <= 1)%Q.
Proof.
  intros Hd Hx. apply scored_row in Hx. destruct Hx as [Hz ->].
  destruct (Hd _ Hz) as [[q [Hq [Hq0 Hq1]]] [[dd [Hdd [Hd0 Hd1]]] Hbase]].
  (* duration over the greatest duration *)
  assert (Hdur : fdiv (of_nat (silence_duration_months (zone x))) (max_duration d) = NaN \/
                 exists f, fdiv (of_nat (silence_duration_months (zone x))) (max_duration d)
                           = Fin f /\ (0 <= f)%Q /\ (f <= 1)%Q).
  { unfold max_duration.
    pose proof (col_max_ge (map (fun r => of_nat (silence_duration_months r)) d)
                  (of_nat (silence_duration_months (zone x)))
                  (in_map (fun r => of_nat (silence_duration_months r)) d _ Hz) eq_refl) as Hge.
    destruct (col_max_in (map (fun r => of_nat (silence_duration_months r)) d)) as [E|Hin].
    - rewrite E in Hge. discriminate.
    - apply in_map_iff in Hin. destruct Hin as [r' [Hr' _]]. rewrite <- Hr' in *.
      unfold of_nat in *. cbn [fleb] in Hge. apply Qle_bool_iff in Hge.
      apply fdiv_fraction; [|exact Hge].
      replace 0%Q with (inject_Z 0) by reflexivity. rewrite <- Zle_Qle. lia. }
  (* baseline over the greatest baseline *)
  assert (Himp : fdiv (baseline_total_ma6 (row (zone x))) (max_baseline d) = NaN \/
                 exists f, fdiv (baseline_total_ma6 (row (zone x))) (max_baseline d)
                           = Fin f /\ (0 <= f)%Q /\ (f <= 1)%Q).
  { destruct Hbase as [->|[b [Hb Hb0]]]; [left; reflexivity|].
    unfold max_baseline.
    pose proof (col_max_ge (map (fun r => baseline_total_ma6 (row r)) d)
                  (baseline_total_ma6 (row (zone x)))
                  (in_map (fun r => baseline_total_ma6 (row r)) d _ Hz)) as Hge.
    rewrite Hb in *. specialize (Hge eq_refl).
    destruct (col_max_in (map (fun r => baseline_total_ma6 (row r)) d)) as [E|Hin].
    - rewrite E in Hge. discriminate.
    - apply in_map_iff in Hin. destruct Hin as [r' [Hr' Hr'd]].
      destruct (Hd _ Hr'd) as [_ [_ [E|[b' [Hb' _]]]]].
      + rewrite <- Hr', E in Hge. discriminate.
      + rewrite <- Hr', Hb' in *. cbn [fleb] in Hge. apply Qle_bool_iff in Hge.
        apply fdiv_fraction; assumption. }
  destruct Hdur as [->|[fd [-> [Hfd0 Hfd1]]]]; [left; apply weighted_nan; auto|].
  destruct Himp as [->|[fi [-> [Hfi0 Hfi1]]]]; [left; apply weighted_nan; auto|].
  right. rewrite Hq, Hdd.
  exists ((35 # 100) * (1 + - q) + (25 # 100) * fd + (25 # 100) * (dd / 100)
          + (15 # 100) * fi)%Q.
  split; [reflexivity|].
  assert (He0 : (0 <= dd / 100)%Q) by (apply Qle_shift_div_l; lra).
  assert (He1 : (dd / 100 <= 1)%Q) by (apply Qle_shift_div_r; lra).
  set (e := (dd / 100)%Q) in *. split; lra.
Qed.

Lemma final_row_in_range (df : list MergedRow) (r : FinalRow) :
  (forall x, In x df -> fltb (m_total x) (Fin 0) = false) ->
  In r (step4 (series_of df)) ->
  (exists a, suppression_ratio (row r) = Fin a /\ (0 <= a)%Q) /\ in_range r.
Proof.
  intros Hdf Hr.
  destruct (final_row_of_series _ r Hr) as [a [_ [_ [Hrow [Ha _]]]]].
  destruct (Step3More.series_row_nonneg df (row r) Hdf Hrow) as [[a' [Ha' Ha0]] Hbase].
  rewrite Ha in Ha'. injection Ha' as <-.
  split; [exists a; auto|].
  unfold in_range. rewrite (final_row_szi _ r Hr), (final_row_depth _ r Hr), Ha.
  split; [|split; [|exact Hbase]].
  - destruct (clip_unit (Fin a)) as [[E _]|[q [Hq [H0 [H1 _]]]]]; [discriminate|].
    exists q. auto.
  - unfold depth_pct, clip_lower, fsub, fmul, fadd, fopp, fltb.
    destruct (Qltb ((1 + - a) * 100) 0) eqn:E;
      [apply Qltb_lt in E | apply Qltb_ge in E];
      eexists; (split; [reflexivity|]); split; lra.
Qed.

(** X13: when no total of the merged frame is negative (a total that is
    missing or +inf is allowed), on every row of the final table the
    suppression ratio is a number that is at least 0, the baseline is missing
    or at least 0, and the depth lies between 0 and 100. *)
Theorem no_negative_total_ranges (df : list MergedRow) (r : FinalRow) :
  (forall x, In x df -> fltb (m_total x) (Fin 0) = false) ->
  In r (step4 (series_of df)) ->
  (exists a, suppression_ratio (row r) = Fin a /\ (0 <= a)%Q) /\
  (baseline_total_ma6 (row r) = NaN \/
   exists b, baseline_total_ma6 (row r) = Fin b /\ (0 <= b)%Q) /\
  (exists d, suppression_depth_pct r = Fin d /\ (0 <= d)%Q /\ (d <= 100)%Q).
Proof.
  intros Hdf Hr.
  destruct (final_row_in_range df r Hdf Hr) as [Ha [_ [Hd Hb]]].
  split; [exact Ha|]. split; [exact Hb | exact Hd].
Qed.

Lemma no_negative_total_ranges_witness :
  (forall x, In x Sample.merged -> fltb (m_total x) (Fin 0) = false) /\
  In Sample.gangtok_last (step4 (series_of Sample.merged)) /\
  (exists a, suppression_ratio (row Sample.gangtok_last) = Fin a /\ (0 <= a)%Q) /\
  (baseline_total_ma6 (row Sample.gangtok_last) = NaN \/
   exists b, baseline_total_ma6 (row Sample.gangtok_last) = Fin b /\ (0 <= b)%Q) /\
  (exists d, suppression_depth_pct Sample.gangtok_last = Fin d /\
             (0 <= d)%Q /\ (d <= 100)%Q).
Proof.
  assert (Hdf : forall x, In x Sample.merged -> fltb (m_total x) (Fin 0) = false).
  { intros x Hx. unfold Sample.merged in Hx.
    repeat (destruct Hx as [<-|Hx]; [reflexivity|]). destruct Hx. }
  assert (H : In Sample.gangtok_last (step4 (series_of Sample.merged))).
  { vm_compute. do 8 right. left. reflexivity. }
  split; [exact Hdf|]. split; [exact H|].
  exact (no_negative_total_ranges _ _ Hdf H).
Defined.

(** X21: when no total of the merged frame is negative, the priority score
    of a record of any selection of rows of the final table is either
    missing (NaN) or a number between 0 and 1. *)
Theorem score_in_unit_interval (df : list MergedRow) (d : list FinalRow) (x : Scored) :
  (forall y, In y df -> fltb (m_total y) (Fin 0) = false) ->
  (forall r, In r d -> In r (step4 (series_of df))) ->
  In x (priority_engine d) ->
  Priority_Score x = NaN \/
  exists s, Priority_Score x = Fin s /\ (0 <= s)%Q /\ (s <= 1)%Q.
Proof.
  intros Hdf Hsel Hx. apply (score_of_rows_in_range d x); [|exact Hx].
  intros r Hr. apply (final_row_in_range df r Hdf), Hsel, Hr.
Qed.

Lemma score_in_unit_interval_witness :
  (forall y, In y Sample.merged -> fltb (m_total y) (Fin 0) = false) /\
  (forall r, In r SampleDashboard.gangtok_known ->
     In r (step4 (series_of Sample.merged))) /\
  In (nth 0 (priority_engine SampleDashboard.gangtok_known)
        (mkScored Sample.blank NaN NaN NaN NaN NaN))
     (priority_engine SampleDashboard.gangtok_known) /\
  (Priority_Score (nth 0 (priority_engine SampleDashboard.gangtok_known)
                     (mkScored Sample.blank NaN NaN NaN NaN NaN)) = NaN \/
   exists s,
     Priority_Score (nth 0 (priority_engine SampleDashboard.gangtok_known)
                       (mkScored Sample.blank NaN NaN NaN NaN NaN)) = Fin s /\
     (0 <= s)%Q /\ (s <= 1)%Q).
Proof.
  assert (Hdf : forall y, In y Sample.merged -> fltb (m_total y) (Fin 0) = false).
  { intros y Hy. unfold Sample.merged in Hy.
    repeat (destruct Hy as [<-|Hy]; [reflexivity|]). destruct Hy. }
  assert (Hsel : forall r, In r SampleDashboard.gangtok_known ->
                   In r (step4 (series_of Sample.merged))).
  { intros r Hr.
    repeat (destruct Hr as [<-|Hr];
            [vm_compute; repeat (first [left; reflexivity | right])|]).
    destruct Hr. }
  assert (H : In (nth 0 (priority_engine SampleDashboard.gangtok_known)
                    (mkScored Sample.blank NaN NaN NaN NaN NaN))
                 (priority_engine SampleDashboard.gangtok_known)).
  { apply nth_In. vm_compute. lia. }
  split; [exact Hdf|]. split; [exact Hsel|]. split; [exact H|].
  exact (score_in_unit_interval _ _ _ Hdf Hsel H).
Defined.

End DashboardFacts.

(* ================================================================== *)
(** * Step 3: columns and region keys *)
(* ================================================================== *)

Module NormalizerFacts.

Import Ascii Float Frame FrameFacts Step3 OrderFacts Step3Facts Normalizer.

Local Open Scope string_scope.

(** ** The columns *)

Lemma has_column_rename_new (old new : string) (columns : list string) :
  has_column old columns = true -> has_column new (rename old new columns) = true.
Proof.
  unfold has_column, rename. rewrite !existsb_exists.
  intros [c [Hc E]]. apply String.eqb_eq in E. subst c.
  exists new. split.
  - apply in_map_iff. exists old. rewrite String.eqb_refl. auto.
  - apply String.eqb_refl.
Qed.

Lemma has_column_rename_other (c old new : string) (columns : list string) :
  c <> old -> has_column c columns = true -> has_column c (rename old new columns) = true.
Proof.
  unfold has_column, rename. rewrite !existsb_exists.
  intros Hne [x [Hx E]]. apply String.eqb_eq in E. subst x.
  exists c. split; [|apply String.eqb_refl].
  apply in_map_iff. exists c. split; [|exact Hx].
  destruct (String.eqb c old) eqn:E; [|reflexivity].
  apply String.eqb_eq in E. contradiction.
Qed.

(** X22: [standardize_common] stops on the first of the columns date, state
    and district that is missing, then on a frame without any of the four PIN
    columns; otherwise the PIN column is the first of pin_code, pincode, pin,
    postal_code that the frame has, and the frame that goes on has the
    columns date, state, district and pin_code. *)
Theorem standardize_columns_outcome (clean : string -> string) (columns : list string) :
  let cols := map clean columns in
  let has c := has_column c cols in
  (standardize_columns clean columns = MissingColumn "date" <-> has "date" = false) /\
  (standardize_columns clean columns = MissingColumn "state" <->
     has "date" = true /\ has "state" = false) /\
  (standardize_columns clean columns = MissingColumn "district" <->
     has "date" = true /\ has "state" = true /\ has "district" = false) /\
  (standardize_columns clean columns = MissingPin cols <->
     has "date" = true /\ has "state" = true /\ has "district" = true /\
     has "pin_code" = false /\ has "pincode" = false /\
     has "pin" = false /\ has "postal_code" = false) /\
  (forall out pin_col,
     standardize_columns clean columns = Ok (out, pin_col) ->
     has "date" = true /\ has "state" = true /\ has "district" = true /\
     has pin_col = true /\
     (pin_col = "pin_code" \/
      pin_col = "pincode" /\ has "pin_code" = false \/
      pin_col = "pin" /\ has "pin_code" = false /\ has "pincode" = false \/
      pin_col = "postal_code" /\ has "pin_code" = false /\ has "pincode" = false /\
        has "pin" = false) /\
     out = rename pin_col "pin_code" cols /\
     has_column "date" out = true /\ has_column "state" out = true /\
     has_column "district" out = true /\ has_column "pin_code" out = true).
Proof.
  cbv zeta. unfold standardize_columns, required_columns, pin_candidates.
  cbn [first_missing find_pin].
  set (cols := map clean columns).
  destruct (has_column "date" cols) eqn:Hd;
    [|repeat split; intros; try discriminate; try reflexivity;
      repeat match goal with H : _ /\ _ |- _ => destruct H end; discriminate].
  destruct (has_column "state" cols) eqn:Hs;
    [|repeat split; intros; try discriminate; try reflexivity;
      repeat match goal with H : _ /\ _ |- _ => destruct H end; discriminate].
  destruct (has_column "district" cols) eqn:Hdi;
    [|repeat split; intros; try discriminate; try reflexivity;
      repeat match goal with H : _ /\ _ |- _ => destruct H end; discriminate].
  assert (Hok : forall p, has_column p cols = true ->
            p <> "date" -> p <> "state" -> p <> "district" ->
            has_column "date" (rename p "pin_code" cols) = true /\
            has_column "state" (rename p "pin_code" cols) = true /\
            has_column "district" (rename p "pin_code" cols) = true /\
            has_column "pin_code" (rename p "pin_code" cols) = true).
  { intros p Hp N1 N2 N3. repeat split.
    - apply has_column_rename_other; auto.
    - apply has_column_rename_other; auto.
    - apply has_column_rename_other; auto.
    - apply has_column_rename_new; auto. }
  destruct (has_column "pin_code" cols) eqn:H1;
    [|destruct (has_column "pincode" cols) eqn:H2;
      [|destruct (has_column "pin" cols) eqn:H3;
        [|destruct (has_column "postal_code" cols) eqn:H4]]];
    (split; [split; intros; discriminate|]);
    (split; [split; [intros; discriminate | intros [_ H]; discriminate]|]);
    (split; [split; [intros; discriminate | intros [_ [_ H]]; discriminate]|]);
    (split;
     [split; [intros H; try discriminate; repeat split; reflexivity
             | intros [_ [_ [_ [P1 [P2 [P3 P4]]]]]]; try discriminate; reflexivity]|]);
    intros out pin_col H; try discriminate; injection H as <- <-;
    (split; [reflexivity|]); (split; [reflexivity|]); (split; [reflexivity|]);
    (split; [assumption|]);
    (split; [tauto|]); (split; [reflexivity|]);
    apply Hok; try assumption; discriminate.
Qed.

(** ** The region key *)

Lemma append_assoc (a b c : string) : (a ++ b) ++ c = a ++ (b ++ c).
Proof. induction a as [|x a IH]; simpl; [|rewrite IH]; reflexivity. Qed.

(** A string without the bar, then the separator: the two parts are found
    again. *)
Lemma split_at_separator (s1 s2 r1 r2 : string) :
  has_bar s1 = false -> has_bar s2 = false ->
  s1 ++ " | " ++ r1 = s2 ++ " | " ++ r2 ->
  s1 = s2 /\ r1 = r2.
Proof.
  revert s2. induction s1 as [|c s1 IH]; intros [|c2 s2] H1 H2 E.
  - simpl in E. injection E as E. auto.
  - exfalso. simpl in E. injection E as Ec E. subst c2.
    destruct s2 as [|c3 s2]; simpl in E; injection E as Ec _.
    + discriminate.
    + subst c3. simpl in H2. discriminate.
  - exfalso. simpl in E. injection E as Ec E. subst c.
    destruct s1 as [|c3 s1]; simpl in E; injection E as Ec _.
    + discriminate.
    + subst c3. simpl in H1. discriminate.
  - simpl in E. injection E as Ec E. subst c2.
    simpl in H1, H2. apply orb_false_iff in H1, H2.
    destruct (IH s2 (proj2 H1) (proj2 H2) E) as [-> ->]. auto.
Qed.

Lemma region_id_parts (s d p s' d' p' : string) :
  has_bar s = false -> has_bar d = false ->
  has_bar s' = false -> has_bar d' = false ->
  make_region_id s d p = make_region_id s' d' p' ->
  s = s' /\ d = d' /\ p = p'.
Proof.
  intros Hs Hd Hs' Hd' E. unfold make_region_id in E.
  rewrite !append_assoc in E.
  destruct (split_at_separator s s' _ _ Hs Hs' E) as [-> E2].
  destruct (split_at_separator d d' _ _ Hd Hd' E2) as [-> ->]. auto.
Qed.

(** X23: the region key tells the state, the district and the PIN code
    apart, as long as the state and the district do not hold the bar of the
    separator. *)
Theorem region_id_injective (s d p s' d' p' : string) :
  has_bar s = false -> has_bar d = false ->
  has_bar s' = false -> has_bar d' = false ->
  make_region_id s d p = make_region_id s' d' p' ->
  s = s' /\ d = d' /\ p = p'.
Proof. apply region_id_parts. Qed.

Lemma region_id_injective_witness :
  has_bar "Sikkim" = false /\ has_bar "Gangtok" = false /\
  has_bar "Sikkim" = false /\ has_bar "Gangtok" = false /\
  make_region_id "Sikkim" "Gangtok" "737101" = make_region_id "Sikkim" "Gangtok" "737101" /\
  ("Sikkim" = "Sikkim" /\ "Gangtok" = "Gangtok" /\ "737101" = "737101").
Proof.
  assert (Hs : has_bar "Sikkim" = false) by reflexivity.
  assert (Hd : has_bar "Gangtok" = false) by reflexivity.
  assert (E : make_region_id "Sikkim" "Gangtok" "737101"
              = make_region_id "Sikkim" "Gangtok" "737101") by reflexivity.
  split; [exact Hs|]. split; [exact Hd|]. split; [exact Hs|]. split; [exact Hd|].
  split; [exact E|].
  exact (region_id_injective "Sikkim" "Gangtok" "737101" "Sikkim" "Gangtok" "737101"
           Hs Hd Hs Hd E).
Defined.

(** Without this condition two regions can share a key. *)
Example region_id_collision :
  make_region_id "A | B" "C" "1" = make_region_id "A" "B | C" "1".
Proof. reflexivity. Qed.

(** ** Months of a region *)

Lemma well_formed_key_eq (k1 k2 : Key) :
  well_formed k1 -> well_formed k2 ->
  region_id k1 = region_id k2 -> yyyymm k1 = yyyymm k2 -> k1 = k2.
Proof.
  intros [E1 [S1 D1]] [E2 [S2 D2]] Hreg Hm.
  rewrite E1, E2 in Hreg.
  destruct (region_id_parts _ _ _ _ _ _ S1 D1 S2 D2 Hreg) as [Hs [Hd Hp]].
  destruct k1, k2. simpl in *. subst. reflexivity.
Qed.

(** X24: when the keys of the feeds are built as [standardize_common]
    builds them, from states and districts without the bar, the rows of a
    region in the series are in strictly increasing month order: no region
    has two rows for one month. *)
Theorem months_increase_within_region (enrol demo bio : Feed) (i j : nat)
    (r1 r2 : SeriesRow) :
  (forall k, In k (map fst enrol) \/ In k (map fst demo) \/ In k (map fst bio) ->
     well_formed k) ->
  nth_error (step3 enrol demo bio) i = Some r1 ->
  nth_error (step3 enrol demo bio) j = Some r2 ->
  i < j ->
  region r1 = region r2 ->
  (yyyymm (key r1) < yyyymm (key r2))%Z.
Proof.
  intros Hwf H1 H2 Hij Hreg.
  pose proof (series_of_sorted
                (merged_frame (groupby_sum enrol) (groupby_sum demo) (groupby_sum bio))) as Hs.
  fold (step3 enrol demo bio) in Hs.
  assert (Hj : j < length (step3 enrol demo bio)) by (apply nth_error_Some; congruence).
  pose proof (StronglySorted_nth _ r1 _ Hs i j Hij Hj) as Hle.
  rewrite (nth_error_nth _ _ r1 H1), (nth_error_nth _ _ r1 H2) in Hle.
  apply key_leb_month in Hle; [|exact Hreg].
  destruct (Z.eq_dec (yyyymm (key r1)) (yyyymm (key r2))) as [E|E]; [|lia].
  exfalso.
  assert (Hk : key r1 = key r2).
  { apply well_formed_key_eq; auto.
    - apply Hwf, Step3More.series_key_in_feeds, (nth_error_In _ _ H1).
    - apply Hwf, Step3More.series_key_in_feeds, (nth_error_In _ _ H2). }
  pose proof (Step3More.series_keys_nodup enrol demo bio) as Hnd.
  rewrite NoDup_nth_error in Hnd.
  assert (Hi : i < length (map key (step3 enrol demo bio))) by (rewrite length_map; lia).
  specialize (Hnd i j Hi).
  rewrite !nth_error_map, H1, H2 in Hnd. simpl in Hnd.
  rewrite Hk in Hnd. specialize (Hnd eq_refl). lia.
Qed.

Lemma months_increase_within_region_witness :
  (forall k, In k (map fst Sample.enrol) \/ In k (map fst Sample.demo) \/
             In k (map fst Sample.bio) -> well_formed k) /\
  nth_error (step3 Sample.enrol Sample.demo Sample.bio) 7
    = Some (nth 7 Sample.series Sample.blank_month) /\
  nth_error (step3 Sample.enrol Sample.demo Sample.bio) 8 = Some Sample.gangtok_last_month /\
  7 < 8 /\
  region (nth 7 Sample.series Sample.blank_month) = region Sample.gangtok_last_month /\
  (yyyymm (key (nth 7 Sample.series Sample.blank_month))
   < yyyymm (key Sample.gangtok_last_month))%Z.
Proof.
  assert (Hwf : forall k, In k (map fst Sample.enrol) \/ In k (map fst Sample.demo) \/
                          In k (map fst Sample.bio) -> well_formed k).
  { intros k [H|[H|H]]; simpl in H;
      repeat (destruct H as [<-|H]; [repeat split; reflexivity|]); destruct H. }
  assert (H1 : nth_error (step3 Sample.enrol Sample.demo Sample.bio) 7
               = Some (nth 7 Sample.series Sample.blank_month)) by (vm_compute; reflexivity).
  assert (H2 : nth_error (step3 Sample.enrol Sample.demo Sample.bio) 8
               = Some Sample.gangtok_last_month) by (vm_compute; reflexivity).
  assert (Hij : 7 < 8) by lia.
  assert (Hreg : region (nth 7 Sample.series Sample.blank_month)
                 = region Sample.gangtok_last_month) by reflexivity.
  split; [exact Hwf|]. split; [exact H1|]. split; [exact H2|]. split; [exact Hij|].
  split; [exact Hreg|].
  exact (months_increase_within_region _ _ _ _ _ _ _ Hwf H1 H2 Hij Hreg).
Defined.

End NormalizerFacts.

(* ================================================================== *)
(** * Facts about the merge of the raw parts *)
(* ================================================================== *)

Module MergePartsFacts.

Import MergeParts.

Lemma read_tables_In {A} (files : list (option (list A))) (temp : list A) :
  In temp (read_tables files) <-> In (Some temp) files.
Proof.
  unfold read_tables. rewrite in_flat_map. split.
  - intros [[t|] [Hf Ht]]; simpl in Ht; [|tauto].
    destruct Ht as [<-|[]]. exact Hf.
  - intros H. exists (Some temp). split; [exact H | left; reflexivity].
Qed.

Lemma read_tables_nil {A} (files : list (option (list A))) :
  read_tables files = [] <-> Forall (fun f => f = None) files.
Proof.
  induction files as [|[t|] fs IH]; simpl.
  - split; auto.
  - split; [discriminate|]. intros H. inversion H; discriminate.
  - rewrite IH. split; intros H; [constructor; auto | inversion H; auto].
Qed.

Lemma read_tables_rows {A} (files : list (option (list A))) :
  length (concat (read_tables files))
  = list_sum (map (fun f => match f with Some t => length t | None => 0 end) files).
Proof.
  induction files as [|[t|] fs IH]; simpl; auto.
  rewrite length_app. f_equal. exact IH.
Qed.

Lemma merge_csv_parts_cases {A} (files : list (option (list A))) :
  merge_csv_parts files =
  match files, read_tables files with
  | [], _ => NoFiles
  | _ :: _, [] => NothingRead
  | _ :: _, _ :: _ => Saved (concat (read_tables files))
  end.
Proof. destruct files; reflexivity. Qed.

(** X25: the merge stops without writing exactly when the folder holds no
    file, and it fails in [pd.concat] exactly when the folder holds files
    and none of them could be read; in every other case it writes a file. *)
Theorem merge_csv_parts_outcome {A} (files : list (option (list A))) :
  (merge_csv_parts files = NoFiles <-> files = []) /\
  (merge_csv_parts files = NothingRead <->
     files <> [] /\ Forall (fun f => f = None) files) /\
  ((exists rows, merge_csv_parts files = Saved rows) <->
     exists temp, In (Some temp) files).
Proof.
  rewrite merge_csv_parts_cases.
  destruct files as [|f fs].
  - repeat split; try congruence; try discriminate.
    + intros [H _]. congruence.
    + intros [rows H]. discriminate.
    + intros [temp []].
  - destruct (read_tables (f :: fs)) as [|t ts] eqn:E.
    + pose proof (proj1 (read_tables_nil _) E) as Hall.
      repeat split; try congruence; try discriminate; auto.
      * intros [rows H]. discriminate.
      * intros [temp Hin]. rewrite Forall_forall in Hall.
        specialize (Hall _ Hin). discriminate.
    + assert (Hin : In (Some t) (f :: fs))
        by (apply read_tables_In; rewrite E; left; reflexivity).
      repeat split; try congruence; try discriminate.
      * intros [_ Hall]. apply read_tables_nil in Hall. congruence.
      * intros _. exists t. exact Hin.
      * intros _. eexists. reflexivity.
Qed.

(** X26: the file that the merge writes holds the rows of the files that
    could be read and no other row, and as many rows as these files hold
    together: a file that fails to load is left out without a trace. *)
Theorem merged_rows_are_the_read_rows {A} (files : list (option (list A)))
    (rows : list A) :
  merge_csv_parts files = Saved rows ->
  (forall x, In x rows <-> exists temp, In (Some temp) files /\ In x temp) /\
  length rows
  = list_sum (map (fun f => match f with Some t => length t | None => 0 end) files).
Proof.
  rewrite merge_csv_parts_cases. intros H.
  assert (E : rows = concat (read_tables files)).
  { destruct files; [discriminate|].
    destruct (read_tables (o :: files)); [discriminate|]. congruence. }
  subst rows. split.
  - intros x. rewrite in_concat. split.
    + intros [t [Ht Hx]]. exists t. split; [apply read_tables_In; exact Ht | exact Hx].
    + intros [t [Ht Hx]]. exists t. split; [apply read_tables_In; exact Ht | exact Hx].
  - apply read_tables_rows.
Qed.

Lemma merged_rows_are_the_read_rows_witness :
  merge_csv_parts [Some [1; 2]; None; Some [3]] = Saved [1; 2; 3] /\
  (forall x, In x [1; 2; 3] <->
     exists temp, In (Some temp) [Some [1; 2]; None; Some [3]] /\ In x temp) /\
  length [1; 2; 3]
  = list_sum (map (fun f => match f with Some t => length t | None => 0 end)
                [Some [1; 2]; None; Some [3]]).
Proof.
  assert (H : merge_csv_parts [Some [1; 2]; None; Some [3]] = Saved [1; 2; 3])
    by reflexivity.
  split; [exact H|].
  exact (merged_rows_are_the_read_rows _ _ H).
Defined.

End MergePartsFacts.
